(** * National Levee Database notebooks: bulk download and clip

    A shallow embedding of the two notebooks of the repository:

    - [1_NLD_Bulk_Download.ipynb]: [featurelayer2shapefile_ogr] and
      [row_func], which download ArcGIS feature layers into local
      shapefiles through GDAL/OGR;
    - [2_NLD_Clip_and_Vis.ipynb]: the two-pass clip ([boundary_geom],
      [clip_possible_gdf], [clip_exact_gdf]) of a layer against a
      watershed boundary through geopandas.

    The notebooks are glue over third-party libraries.  The code of the
    notebooks is embedded as it is written; the libraries it calls (OGR,
    the remote feature service, [os.path], geopandas' spatial index and
    shapely's predicates) appear as explicit collaborators: concrete
    executable models where a behaviour has to be fixed, interfaces with
    laws where only a contract is known. *)

From Stdlib Require Import ZArith Ascii List Lia.
From Stdlib Require String.
From Stdlib Require Import Numbers.DecimalString Numbers.DecimalZ.
From stdpp Require Import base option list sorting gmap strings.

(** ** Python strings *)

Module Str.

(** [s.partition(c)]: the text before the first [c], and the text after
    it when [c] occurs. *)
Fixpoint partition (c : ascii) (s : string) : string * option string :=
  match s with
  | EmptyString => (EmptyString, None)
  | String a s' =>
      if Ascii.eqb a c then (EmptyString, Some s')
      else let '(l, r) := partition c s' in (String a l, r)
  end.

(** [s.split(c)] for a one-character separator. *)
Fixpoint split (c : ascii) (s : string) : list string :=
  match s with
  | EmptyString => [EmptyString]
  | String a s' =>
      if Ascii.eqb a c then EmptyString :: split c s'
      else match split c s' with
           | w :: ws => String a w :: ws
           | [] => [String a EmptyString]
           end
  end.

Fixpoint contains (c : ascii) (s : string) : bool :=
  match s with
  | EmptyString => false
  | String a s' => Ascii.eqb a c || contains c s'
  end.

Fixpoint repeat (c : ascii) (n : nat) : string :=
  match n with
  | O => EmptyString
  | S n' => String c (repeat c n')
  end.

Definition hex_digit (a : ascii) : option N :=
  let n := N_of_ascii a in
  if (48 <=? n)%N && (n <=? 57)%N then Some (n - 48)%N
  else if (65 <=? n)%N && (n <=? 70)%N then Some (n - 55)%N
  else if (97 <=? n)%N && (n <=? 102)%N then Some (n - 87)%N
  else None.

(** [urllib.parse.unquote_plus]: a plus sign is a space, [%XY] is the
    byte with hexadecimal code [XY]. *)
Fixpoint unquote_plus (s : string) : string :=
  match s with
  | EmptyString => EmptyString
  | String "+" s' => String " " (unquote_plus s')
  | String "%" (String h (String l s') as rest) =>
      match hex_digit h, hex_digit l with
      | Some hi, Some lo => String (ascii_of_N (16 * hi + lo)) (unquote_plus s')
      | _, _ => String "%" (unquote_plus rest)
      end
  | String a s' => String a (unquote_plus s')
  end.

(** The decimal value of a string of digits, as [int(s)] reads it. *)
Fixpoint digits_value (acc : nat) (s : string) : option nat :=
  match s with
  | EmptyString => Some acc
  | String a s' =>
      let n := N_of_ascii a in
      if (48 <=? n)%N && (n <=? 57)%N
      then digits_value (10 * acc + N.to_nat (n - 48)) s'
      else None
  end.

Definition to_nat (s : string) : option nat :=
  match s with
  | EmptyString => None
  | _ => digits_value 0 s
  end.

(** [str(z)] for an integer. *)
Definition of_Z (z : Z) : string := NilEmpty.string_of_int (Z.to_int z).

Definition of_nat (n : nat) : string := NilEmpty.string_of_uint (Nat.to_uint n).

(** Groups of three digits from the right, as ["{:,}".format(n)]. *)
Fixpoint group3 (rev_digits : list ascii) (k : nat) (acc : string) : string :=
  match rev_digits with
  | [] => acc
  | d :: ds =>
      match k with
      | 3 => group3 ds 1 (String d (String "," acc))
      | _ => group3 ds (S k) (String d acc)
      end
  end.

Definition format_thousands (n : nat) : string :=
  group3 (List.rev (String.list_ascii_of_string (of_nat n))) 0 EmptyString.

End Str.

(** ** Data model *)

Inductive AttrValue :=
| AttrStr (s : string)
| AttrNum (z : Z)
| AttrNull.

(** A feature record: the server-assigned identifier (the [OBJECTID]
    field the query orders by), a geometry and the attribute mapping.
    The geometry type [G] is opaque to the download notebook. *)
Record Feature (G : Type) := mkFeature {
  OBJECTID : Z;
  geometry : G;
  attributes : list (string * AttrValue)
}.
Arguments mkFeature {G} _ _ _.
Arguments OBJECTID {G} _.
Arguments geometry {G} _.
Arguments attributes {G} _.

(** ** Python exceptions and effects *)

(** The exceptions the notebooks' code can end with, and the error names
    of the specification ([FetchError], [ParseError],
    [InvalidBoundaryError]); no line of the notebooks raises or defines
    the latter three. *)
Inductive PyExc :=
| AttributeError (msg : string)
| IndexError (msg : string)
| ValueError (msg : string)
| TypeError (msg : string)
| FetchError (offset : nat)
| ParseError
| InvalidBoundaryError.

Inductive Outcome (S A : Type) :=
| Return (a : A) (s : S)
| Raise (e : PyExc) (s : S).
Arguments Return {S A} _ _.
Arguments Raise {S A} _ _.

(** A statement sequence over a state [S]: it returns a value or raises,
    and in both cases leaves a state behind. *)
Definition Py (S A : Type) : Type := S -> Outcome S A.

Definition ret {S A} (a : A) : Py S A := fun s => Return a s.

Definition raise {S A} (e : PyExc) : Py S A := fun s => Raise e s.

Definition bind {S A B} (m : Py S A) (k : A -> Py S B) : Py S B :=
  fun s => match m s with
           | Return a s' => k a s'
           | Raise e s' => Raise e s'
           end.

Definition modify {S} (f : S -> S) : Py S unit := fun s => Return tt (f s).

Definition gets {S A} (f : S -> A) : Py S A := fun s => Return (f s) s.

Definition final {S A} (o : Outcome S A) : S :=
  match o with
  | Return _ s => s
  | Raise _ s => s
  end.

Declare Scope py_scope.
Delimit Scope py_scope with py.
Notation "x <~ m ;; k" := (bind m (fun x => k))
  (at level 100, m at next level, right associativity) : py_scope.
Notation "m ;;; k" := (bind m (fun _ => k))
  (at level 100, right associativity) : py_scope.

(** Attribute access on a value that may be [None]. *)
Definition attr {S A} (o : option A) (name : string) : Py S A :=
  match o with
  | Some a => ret a
  | None => raise (AttributeError
              ("'NoneType' object has no attribute '" +:+ name +:+ "'"))
  end.

(** ** The remote feature service and the local disk *)

(** What a layer endpoint of the feature server is doing during one run
    of the notebook: serving a collection that does not change, not
    answering, answering with something that is not a feature page, or
    serving a collection but answering only the first [answered] page
    requests of a fetch and failing the later ones. *)
Inductive Endpoint (G : Type) :=
| Static (coll : list (Feature G))
| Failing
| Garbled
| Interrupted (coll : list (Feature G)) (answered : nat).
Arguments Static {G} _.
Arguments Failing {G}.
Arguments Garbled {G}.
Arguments Interrupted {G} _ _.

(** The calls made to the collaborators, in the order they are made. *)
Inductive Call :=
| COpen (url : string)
| CExists (path : string)
| CDelete (path : string)
| CCreate (path : string)
| CCopyLayer (path : string) (count : nat).

(** The path a call hands to the local filesystem, if any. *)
Definition call_path (c : Call) : option string :=
  match c with
  | COpen _ => None
  | CExists p | CDelete p | CCreate p | CCopyLayer p _ => Some p
  end.

Definition is_open (c : Call) : bool :=
  match c with COpen _ => true | _ => false end.

Record World (G : Type) := mkWorld {
  remote : gmap string (Endpoint G);
  disk : gmap string (list (Feature G));
  stdout : list string;
  calls : list Call
}.
Arguments mkWorld {G} _ _ _ _.
Arguments remote {G} _.
Arguments disk {G} _.
Arguments stdout {G} _.
Arguments calls {G} _.

(** ** Query strings *)

Definition parse_qs (qs : string) : list (string * string) :=
  map (fun kv => let '(k, v) := Str.partition "=" kv in
                 (Str.unquote_plus k, Str.unquote_plus (default "" v)))
      (Str.split "&" qs).

Fixpoint qs_get (k : string) (params : list (string * string)) : option string :=
  match params with
  | [] => None
  | (k', v) :: rest => if String.eqb k k' then Some v else qs_get k rest
  end.

Record Query := mkQuery {
  q_where : string;
  q_outfields : string;
  q_format : string;
  q_count : nat;
  q_order : string
}.

Definition parse_query (params : list (string * string)) : option Query :=
  w ← qs_get "where" params;
  o ← qs_get "outfields" params;
  f ← qs_get "f" params;
  c ← qs_get "resultRecordCount" params ≫= Str.to_nat;
  r ← qs_get "orderByFields" params;
  Some (mkQuery w o f c r).

Section Service.
Context {G : Type}.

Definition by_id (f g : Feature G) : Prop := (OBJECTID f <= OBJECTID g)%Z.

#[global] Instance by_id_dec : RelDecision by_id :=
  fun f g => Z_le_dec (OBJECTID f) (OBJECTID g).

(** Modelled from the spec: the response contract of the remote paged
    endpoint (section 6), whose implementation is the ArcGIS server.  A
    query inside the contract has an always-true where clause, asks for
    all fields, and orders by identifier ascending. *)
Definition in_contract (q : Query) : bool :=
  String.eqb (q_where q) "1 = 1" && String.eqb (q_outfields q) "*"
  && (String.eqb (q_format q) "json" || String.eqb (q_format q) "geojson")
  && String.eqb (q_order q) "OBJECTID ASC".

(** Modelled from the spec: one page of the remote collection (section
    6): at most [q_count] records from [offset] on, in ascending
    identifier order. *)
Definition serve_page (coll : list (Feature G)) (q : Query) (offset : nat)
  : list (Feature G) :=
  take (q_count q) (drop offset (merge_sort by_id coll)).

(** Modelled from the spec: the paging loop of section 4.1, which the
    notebook leaves to the OGR driver behind [ogr.Open].  Pages are
    requested at offsets 0, [page_size], 2 [page_size], ... and
    concatenated in request order; the fetch is complete at a page with
    fewer than [page_size] records, or when the server-reported total has
    been reached.  [fuel] bounds the number of requests. *)
Fixpoint fetch_pages (fuel : nat) (page : nat -> list (Feature G))
    (page_size total offset : nat) : option (list (Feature G)) :=
  match fuel with
  | O => None
  | S fuel' =>
      let p := page offset in
      if (length p <? page_size) || (total <=? offset + length p)
      then Some p
      else app p <$> fetch_pages fuel' page page_size total (offset + page_size)
  end.

(** Modelled from the spec: [fetch_all] of section 4.1 for the collection
    behind one endpoint; the page size is the query's
    [resultRecordCount], the total is the size of the collection. *)
Definition fetch_all (q : Query) (coll : list (Feature G))
  : option (list (Feature G)) :=
  fetch_pages (S (length coll)) (serve_page coll q) (q_count q) (length coll) 0.

(** A page of an endpoint that answers only the first [answered] page
    requests of a fetch: a request it does not answer yields no record. *)
Definition serve_page_until (coll : list (Feature G)) (q : Query)
    (answered offset : nat) : list (Feature G) :=
  if offset <? answered * q_count q then serve_page coll q offset else [].

(** The features the OGR layer yields when a page request after the
    first is not answered: the driver takes the failed request for the
    end of the features, so the layer holds the records of the pages
    before it and the fetch goes on as if it were complete. *)
Definition fetch_interrupted (q : Query) (coll : list (Feature G))
    (answered : nat) : option (list (Feature G)) :=
  fetch_pages (S (length coll)) (serve_page_until coll q answered)
              (q_count q) (length coll) 0.

(** ** OGR *)

Definition Layer : Type := list (Feature G).
Definition DataSource : Type := list Layer.

(** What [ogr.Open(url)] evaluates to: a data source with one layer
    holding every fetched feature, or [None] when the source cannot be
    opened (the bindings return [None] rather than raise; the notebook
    never calls [ogr.UseExceptions()]).  The source cannot be opened when
    the first request is not answered.  The layer is the sequence of
    features that iterating it yields; the feature count the real layer
    reports for an interrupted fetch is the server's total, which is not
    modelled. *)
Definition open_datasource (r : gmap string (Endpoint G)) (url : string)
  : option DataSource :=
  let '(path, qs) := Str.partition "?" url in
  match r !! path, qs with
  | Some (Static coll), Some qs =>
      q ← parse_query (parse_qs qs);
      if in_contract q then (fun l => [l]) <$> fetch_all q coll
      else None
  | Some (Interrupted coll answered), Some qs =>
      q ← parse_query (parse_qs qs);
      if in_contract q && (0 <? answered)
      then (fun l => [l]) <$> fetch_interrupted q coll answered
      else None
  | _, _ => None
  end.

Definition log (c : Call) : Py (World G) unit :=
  modify (fun w => mkWorld (remote w) (disk w) (stdout w) (calls w ++ [c])).

Definition print (line : string) : Py (World G) unit :=
  modify (fun w => mkWorld (remote w) (disk w) (stdout w ++ [line]) (calls w)).

Definition set_disk (f : gmap string (list (Feature G)) -> gmap string (list (Feature G)))
  : Py (World G) unit :=
  modify (fun w => mkWorld (remote w) (f (disk w)) (stdout w) (calls w)).

Definition ogr_Open (url : string) : Py (World G) (option DataSource) :=
  (log (COpen url) ;;;
   gets (fun w => open_datasource (remote w) url))%py.

Definition GetLayerByIndex (ds : option DataSource) (i : nat)
  : Py (World G) (option Layer) :=
  (d <~ attr ds "GetLayerByIndex" ;; ret (d !! i))%py.

Definition GetFeatureCount (layer : option Layer) : Py (World G) nat :=
  (l <~ attr layer "GetFeatureCount" ;; ret (length l))%py.

Definition GetDriverByName (name : string) : option string :=
  if String.eqb name "ESRI Shapefile" then Some name else None.

Definition os_path_exists (path : string) : Py (World G) bool :=
  (log (CExists path) ;;;
   gets (fun w => bool_decide (is_Some (disk w !! path))))%py.

Definition DeleteDataSource (driver : option string) (path : string)
  : Py (World G) unit :=
  (_ <~ attr driver "DeleteDataSource" ;;
   log (CDelete path) ;;;
   set_disk (delete path))%py.

(** The shapefile driver creates a data source only at a path that is
    free; at an occupied path the call evaluates to [None]. *)
Definition CreateDataSource (driver : option string) (path : string)
  : Py (World G) (option string) :=
  (_ <~ attr driver "CreateDataSource" ;;
   log (CCreate path) ;;;
   gets (fun w => match disk w !! path with
                  | Some _ => None
                  | None => Some path
                  end))%py.

(** [ds_out.CopyLayer(layer, name)] on a disk that takes every write:
    the shapefile then holds the features of the layer as they were
    fetched.  A copy that the driver cannot write, after which the call
    evaluates to [None], and what the shapefile format does to field
    names and values are not modelled. *)
Definition CopyLayer (ds_out : option string) (layer : option Layer)
    (name : string) : Py (World G) (option Layer) :=
  (path <~ attr ds_out "CopyLayer" ;;
   match layer with
   | None => raise (ValueError "Received a NULL pointer.")
   | Some l =>
       log (CCopyLayer path (length l)) ;;;
       set_disk (insert path l) ;;;
       ret (Some l)
   end)%py.

(** ** [featurelayer2shapefile_ogr] *)

Definition query_suffix : string :=
  "/query/?where=1+%3D+1&outfields=*&f=json&resultRecordCount=1000&orderByFields=OBJECTID+ASC".

Definition featurelayer2shapefile_ogr (featurelayer_url shapefile_path : string)
  : Py (World G) unit :=
  (let query_url := featurelayer_url +:+ query_suffix in
   print query_url ;;;
   ds <~ ogr_Open query_url ;;
   layer <~ GetLayerByIndex ds 0 ;;
   feature_count <~ GetFeatureCount layer ;;
   print ("Input Feature Count: " +:+ Str.format_thousands feature_count) ;;;
   let driver_out := GetDriverByName "ESRI Shapefile" in
   present <~ os_path_exists shapefile_path ;;
   (if present : bool then DeleteDataSource driver_out shapefile_path else ret tt) ;;;
   ds_out <~ CreateDataSource driver_out shapefile_path ;;
   layer_out <~ CopyLayer ds_out layer "layer" ;;
   n_out <~ GetFeatureCount layer_out ;;
   print ("Output Feature Count: " +:+ Str.format_thousands n_out
          +:+ " at " +:+ shapefile_path) ;;;
   ret tt)%py.

End Service.

(** ** [row_func] and the loop over the layer table *)

(** The values the notebook's global [id_list] can hold: the notebook
    assigns a list, and offers a [range] in a comment. *)
Inductive PyObj :=
| PyNone
| PyList (items : list Z)
| PyRange (start stop : Z).

Definition is_None (o : PyObj) : bool :=
  match o with PyNone => true | _ => false end.

Definition type_is_list (o : PyObj) : bool :=
  match o with PyList _ => true | _ => false end.

(** [x in o] for a container [o]. *)
Definition py_in (x : Z) (o : PyObj) : bool :=
  match o with
  | PyNone => false
  | PyList items => bool_decide (x ∈ items)
  | PyRange start stop => bool_decide (start <= x < stop)%Z
  end.

(** One row of the layer table built from the service description. *)
Record LayerRow := mkLayerRow {
  name : string;
  id : Z;
  geometryType : string
}.

Definition starts_with_sep (s : string) : bool :=
  match s with
  | String "/" _ => true
  | _ => false
  end.

Fixpoint ends_with_sep (s : string) : bool :=
  match s with
  | EmptyString => false
  | String a EmptyString => Ascii.eqb a "/"
  | String _ s' => ends_with_sep s'
  end.

(** [os.path.join(a, b)] on a POSIX system. *)
Definition os_path_join (a b : string) : string :=
  if starts_with_sep b then b
  else if String.eqb a "" || ends_with_sep a then a +:+ b
  else a +:+ "/" +:+ b.

Section Download.
Context {G : Type}.

(** The notebook's globals, and werkzeug's [secure_filename]. *)
Variable url_feature_server : string.
Variable download_folder : string.
Variable id_list : PyObj.
Variable secure_filename : string -> string.

Definition row_func (row : LayerRow) : Py (World G) unit :=
  let name := name row in
  let id := id row in
  if negb (is_None id_list) && type_is_list id_list && negb (py_in id id_list)
  then ret tt
  else
    (let name_safe := secure_filename name in
     let shp_path := os_path_join download_folder (name_safe +:+ ".shp") in
     print (Str.repeat "-" 80) ;;;
     print ("id: " +:+ Str.of_Z id +:+ "; name: " +:+ name
            +:+ "; file: " +:+ shp_path) ;;;
     let featurelayer_url := url_feature_server +:+ "/" +:+ Str.of_Z id +:+ "/" in
     featurelayer2shapefile_ogr featurelayer_url shp_path)%py.

(** [df.apply(row_func, axis=1)]: the rows in table order; an exception
    ends the loop. *)
Fixpoint df_apply (rows : list LayerRow) : Py (World G) unit :=
  match rows with
  | [] => ret tt
  | row :: rest => (row_func row ;;; df_apply rest)%py
  end.

(** The pieces of a run of [row_func], by name. *)
Definition skipped (row : LayerRow) : bool :=
  negb (is_None id_list) && type_is_list id_list && negb (py_in (id row) id_list).

Definition shp_path_of (row : LayerRow) : string :=
  os_path_join download_folder (secure_filename (name row) +:+ ".shp").

Definition layer_url_of (row : LayerRow) : string :=
  url_feature_server +:+ "/" +:+ Str.of_Z (id row) +:+ "/".

(** After the two lines that announce a layer were printed. *)
Definition announced (row : LayerRow) (w : World G) : World G :=
  mkWorld (remote w) (disk w)
          (stdout w ++ [Str.repeat "-" 80;
                        "id: " +:+ Str.of_Z (id row) +:+ "; name: " +:+ name row
                          +:+ "; file: " +:+ shp_path_of row])
          (calls w).

End Download.

(** ** werkzeug's [secure_filename] *)

Module Werkzeug.

(** The whitespace [str.split()] splits at. *)
Definition is_space (a : ascii) : bool :=
  let n := N_of_ascii a in
  ((9 <=? n)%N && (n <=? 13)%N) || ((28 <=? n)%N && (n <=? 32)%N).

(** The characters the pattern [[^A-Za-z0-9_.-]] leaves in place. *)
Definition is_safe (a : ascii) : bool :=
  let n := N_of_ascii a in
  ((65 <=? n)%N && (n <=? 90)%N) || ((97 <=? n)%N && (n <=? 122)%N)
  || ((48 <=? n)%N && (n <=? 57)%N)
  || (n =? 95)%N || (n =? 46)%N || (n =? 45)%N.

Definition is_dot_or_underscore (a : ascii) : bool :=
  let n := N_of_ascii a in (n =? 46)%N || (n =? 95)%N.

(** [s.split()]: the maximal runs of characters that are not whitespace. *)
Fixpoint words (cur : list ascii) (cs : list ascii) : list (list ascii) :=
  match cs with
  | [] => match cur with [] => [] | _ => [rev cur] end
  | c :: cs' =>
      if is_space c
      then match cur with
           | [] => words [] cs'
           | _ => rev cur :: words [] cs'
           end
      else words (c :: cur) cs'
  end.

Fixpoint join (sep : ascii) (ws : list (list ascii)) : list ascii :=
  match ws with
  | [] => []
  | [w] => w
  | w :: ws' => w ++ sep :: join sep ws'
  end.

Fixpoint lstrip (p : ascii -> bool) (cs : list ascii) : list ascii :=
  match cs with
  | [] => []
  | c :: cs' => if p c then lstrip p cs' else cs
  end.

Definition strip (p : ascii -> bool) (cs : list ascii) : list ascii :=
  rev (lstrip p (rev (lstrip p cs))).

(** What [secure_filename] does on a POSIX system with the characters
    left by the conversion to ASCII: the path separator becomes a space,
    runs of whitespace become one underscore, every character outside
    [A-Za-z0-9_.-] is removed, and dots and underscores are stripped from
    both ends. *)
Definition clean (cs : list ascii) : string :=
  let cs := map (fun c => if Ascii.eqb c "/" then " "%char else c) cs in
  let cs := join "_" (words [] cs) in
  let cs := List.filter is_safe cs in
  String.string_of_list_ascii (strip is_dot_or_underscore cs).

(** [secure_filename] begins with
    [unicodedata.normalize("NFKD", filename).encode("ascii", "ignore")];
    [to_ascii] stands for that conversion, whose table of
    decompositions is not modelled. *)
Definition secure_filename_with (to_ascii : string -> list ascii)
    (filename : string) : string :=
  clean (to_ascii filename).

(** The conversion on a name of ASCII characters, which the
    normalization leaves as they are: bytes outside ASCII are dropped. *)
Definition ascii_only (filename : string) : list ascii :=
  List.filter (fun c => (N_of_ascii c <? 128)%N)
              (String.list_ascii_of_string filename).

(** [secure_filename] for a name of ASCII characters. *)
Definition secure_filename (filename : string) : string :=
  secure_filename_with ascii_only filename.

End Werkzeug.

(** ** Geometry *)

(** Axis-aligned bounding boxes.  Coordinates are taken on an integer
    grid. *)
Record BBox := mkBBox { minx : Z; miny : Z; maxx : Z; maxy : Z }.

(** Two boxes intersect when they share at least one point; an empty
    geometry has no box and intersects nothing. *)
Definition bbox_intersects (a b : option BBox) : bool :=
  match a, b with
  | Some a, Some b =>
      (minx a <=? maxx b)%Z && (minx b <=? maxx a)%Z
      && (miny a <=? maxy b)%Z && (miny b <=? maxy a)%Z
  | _, _ => false
  end.

Inductive GeomType := Point | LineString | Polygon.

(** The part of shapely's geometry interface the clip relies on, with
    the laws of the dimensionally extended nine-intersection model that
    relate its predicates: [touches] means that the geometries share a
    point and their interiors do not, and [within] needs the interiors to
    meet. *)
Class Geometry (G : Type) := {
  geom_type : G -> GeomType;
  bounds : G -> option BBox;
  area : G -> Z;
  within : G -> G -> bool;
  intersects : G -> G -> bool;
  touches : G -> G -> bool;
  touches_intersects : forall a b, touches a b = true -> intersects a b = true;
  touches_not_within : forall a b, touches a b = true -> within a b = false
}.

(** geopandas' spatial index over the bounding boxes of a frame's
    geometries.  [sindex_query F B] are the positions of the rows of [F]
    whose box intersects the box of [B], each once, in the order the
    index reports them: that order is the index's own. *)
Record SpatialIndex (G : Type) `{Geometry G} := {
  sindex_query : list (Feature G) -> G -> list nat;
  sindex_sound : forall F B i,
    i ∈ sindex_query F B ->
    exists f, F !! i = Some f
              /\ bbox_intersects (bounds (geometry f)) (bounds B) = true;
  sindex_complete : forall F B i f,
    F !! i = Some f ->
    bbox_intersects (bounds (geometry f)) (bounds B) = true ->
    i ∈ sindex_query F B;
  sindex_NoDup : forall F B, NoDup (sindex_query F B)
}.
Arguments sindex_query {G _} _ _ _.
Arguments sindex_sound {G _} _ _ _ _ _.
Arguments sindex_complete {G _} _ _ _ _ _ _ _.
Arguments sindex_NoDup {G _} _ _ _.

(** ** pandas indexing *)

Inductive Result (A : Type) :=
| Ok (a : A)
| Err (e : PyExc).
Arguments Ok {A} _.
Arguments Err {A} _.

Definition and_then {A B} (r : Result A) (k : A -> Result B) : Result B :=
  match r with
  | Ok a => k a
  | Err e => Err e
  end.

(** [df.iloc[i]] for one position. *)
Definition iloc_row {A} (rows : list A) (i : nat) : Result A :=
  match rows !! i with
  | Some r => Ok r
  | None => Err (IndexError "single positional indexer is out-of-bounds")
  end.

(** [df.iloc[positions]]: the rows at the positions, in the order of the
    positions. *)
Definition iloc {A} (rows : list A) (positions : list nat) : Result (list A) :=
  match mapM (fun i => rows !! i) positions with
  | Some rs => Ok rs
  | None => Err (IndexError "positional indexers are out-of-bounds")
  end.

(** [df[mask]] for a boolean mask computed from [df] itself. *)
Fixpoint mask_select {A} (rows : list A) (mask : list bool) : list A :=
  match rows, mask with
  | r :: rows', b :: mask' =>
      if b then r :: mask_select rows' mask' else mask_select rows' mask'
  | _, _ => []
  end.

(** ** The two-pass clip *)

Section Clip.
Context {G : Type} `{Geometry G}.
Variable sindex : SpatialIndex G.

Definition boundary_geom (boundary_gdf : list (Feature G)) : Result G :=
  and_then (iloc_row boundary_gdf 0) (fun row => Ok (geometry row)).

Definition clip_possible_gdf (features_gdf : list (Feature G)) (bgeom : G)
  : Result (list (Feature G)) :=
  iloc features_gdf (sindex_query sindex features_gdf bgeom).

Definition clip_exact_gdf (possible : list (Feature G)) (bgeom : G)
  : list (Feature G) :=
  mask_select possible (map (fun f => within (geometry f) bgeom) possible).

(** The three assignments of the notebook's two subsetting cells. *)
Definition clip (features_gdf boundary_gdf : list (Feature G))
  : Result (list (Feature G)) :=
  and_then (boundary_geom boundary_gdf) (fun bgeom =>
  and_then (clip_possible_gdf features_gdf bgeom) (fun possible =>
  Ok (clip_exact_gdf possible bgeom))).

(** A row of a frame as [gpd.read_file] returns it: the geometry cell of
    a record stored without a shape holds [None]. *)
Definition with_geometry (row : Feature G) : Feature (option G) :=
  mkFeature (OBJECTID row) (Some (geometry row)) (attributes row).

(** The same cells run on a boundary frame as read from a file.  With
    [None] in the geometry cell of the first row, [sindex.query] is
    handed [None] and the cell ends in a [TypeError]; the text of its
    message is the library's and is not modelled. *)
Definition clip_frame (features_gdf : list (Feature G))
    (boundary_gdf : list (Feature (option G))) : Result (list (Feature G)) :=
  and_then (iloc_row boundary_gdf 0) (fun row =>
  match geometry row with
  | None => Err (TypeError "boundary geometry is None")
  | Some bgeom =>
      and_then (clip_possible_gdf features_gdf bgeom) (fun possible =>
      Ok (clip_exact_gdf possible bgeom))
  end).

End Clip.

(** ** A linear-scan spatial index *)

Section Scan.
Context {G : Type} `{Geometry G}.

(** The positions whose box intersects the box of [B], found by testing
    every row in turn: ascending. *)
Definition scan_query (F : list (Feature G)) (B : G) : list nat :=
  List.filter
    (fun i => match F !! i with
              | Some f => bbox_intersects (bounds (geometry f)) (bounds B)
              | None => false
              end)
    (seq 0 (length F)).

(** The same positions as a traversal from the last row reports them. *)
Definition reverse_scan_query (F : list (Feature G)) (B : G) : list nat :=
  reverse (scan_query F B).

End Scan.

(** ** The packed R-tree behind [sindex.query] *)

(** [features_gdf.sindex] is shapely's [STRtree], a GEOS
    [TemplateSTRtree] with the default node capacity: a tree packed
    bottom-up by the sort-tile-recursive rule.  A node is a stored item
    with its box and its position in the frame, or a parent with the box
    that spans its children. *)
#[warnings="-register-all"] Inductive Node :=
| Leaf (box : BBox) (item : nat)
| Branch (box : option BBox) (children : list Node).

Definition nodeCapacity : nat := 10.

Definition getBounds (node : Node) : option BBox :=
  match node with
  | Leaf box _ => Some box
  | Branch box _ => box
  end.

Definition expandToInclude (a b : option BBox) : option BBox :=
  match a, b with
  | Some a, Some b =>
      Some (mkBBox (Z.min (minx a) (minx b)) (Z.min (miny a) (miny b))
                   (Z.max (maxx a) (maxx b)) (Z.max (maxy a) (maxy b)))
  | Some a, None => Some a
  | None, b => b
  end.

Definition boundsFromChildren (children : list Node) : option BBox :=
  match children with
  | [] => None
  | first :: others =>
      foldl (fun bnds child => expandToInclude bnds (getBounds child))
            (getBounds first) others
  end.

Definition parent (children : list Node) : Node :=
  Branch (boundsFromChildren children) children.

(** The sort keys: twice the centre of the box along each axis. *)
Definition getX (node : Node) : Z :=
  match getBounds node with
  | Some b => (minx b + maxx b)%Z
  | None => 0%Z
  end.

Definition getY (node : Node) : Z :=
  match getBounds node with
  | Some b => (miny b + maxy b)%Z
  | None => 0%Z
  end.

Definition by_x (a b : Node) : Prop := (getX a <= getX b)%Z.
Definition by_y (a b : Node) : Prop := (getY a <= getY b)%Z.

#[global] Instance by_x_dec : RelDecision by_x :=
  fun a b => decide (getX a <= getX b)%Z.
#[global] Instance by_y_dec : RelDecision by_y :=
  fun a b => decide (getY a <= getY b)%Z.

(** GEOS sorts with [std::sort], which may order nodes with equal keys
    either way; the merge sort here keeps them in their previous order. *)
Definition sortNodesX (nodes : list Node) : list Node := merge_sort by_x nodes.
Definition sortNodesY (nodes : list Node) : list Node := merge_sort by_y nodes.

Definition ceil_div (a b : nat) : nat := (a + b - 1) / b.

Definition sliceCount (numNodes : nat) : nat :=
  Nat.sqrt_up (ceil_div numNodes nodeCapacity).

Definition sliceCapacity (numNodes numSlices : nat) : nat :=
  ceil_div numNodes numSlices.

(** The loop of [addParentNodesFromVerticalSlice]: consecutive runs of
    at most [nodeCapacity] nodes, until the slice is used up. *)
Fixpoint child_runs (fuel : nat) (slice : list Node) : list (list Node) :=
  match fuel, slice with
  | S fuel', _ :: _ =>
      take nodeCapacity slice :: child_runs fuel' (drop nodeCapacity slice)
  | _, _ => []
  end.

Definition addParentNodesFromVerticalSlice (slice : list Node) : list Node :=
  parent <$> child_runs (length slice) (sortNodesY slice).

(** The loop of [createParentNodes]: [numSlices] consecutive slices of
    at most [nodesPerSlice] nodes. *)
Fixpoint vertical_slices (numSlices nodesPerSlice : nat) (nodes : list Node)
  : list (list Node) :=
  match numSlices with
  | 0 => []
  | S j =>
      take nodesPerSlice nodes
      :: vertical_slices j nodesPerSlice (drop nodesPerSlice nodes)
  end.

Definition createParentNodes (nodes : list Node) : list Node :=
  let number := length nodes in
  let numSlices := sliceCount number in
  let nodesPerSlice := sliceCapacity number numSlices in
  vertical_slices numSlices nodesPerSlice (sortNodesX nodes)
  ≫= addParentNodesFromVerticalSlice.

(** The loop of [build]: parents are created level by level while more
    than one node is without a parent; the last node is the root.  Every
    level is shorter than the one below it, so the number of nodes of
    the first level bounds the number of rounds. *)
Fixpoint build_levels (fuel : nat) (level : list Node) : option Node :=
  match level with
  | [] => None
  | [root] => Some root
  | _ =>
      match fuel with
      | 0 => None
      | S fuel' => build_levels fuel' (createParentNodes level)
      end
  end.

Definition build (leaves : list Node) : option Node :=
  build_levels (length leaves) leaves.

(** The traversal of [query]: the children of a node in their stored
    order, descending into those whose box intersects the query box. *)
Fixpoint query_node (queryEnv : option BBox) (node : Node) : list nat :=
  match node with
  | Leaf _ item => [item]
  | Branch _ children =>
      flat_map (fun child =>
                  if bbox_intersects (getBounds child) queryEnv
                  then query_node queryEnv child
                  else [])
               children
  end.

Definition query (root : option Node) (queryEnv : option BBox) : list nat :=
  match root with
  | Some node =>
      if bbox_intersects (getBounds node) queryEnv
      then query_node queryEnv node
      else []
  | None => []
  end.

Section STRtree.
Context {G : Type} `{Geometry G}.

(** shapely inserts the geometries of the frame in row order with their
    positions, leaving out the empty ones. *)
Fixpoint insert_all (i : nat) (F : list (Feature G)) : list Node :=
  match F with
  | [] => []
  | f :: F' =>
      match bounds (geometry f) with
      | Some box => Leaf box i :: insert_all (S i) F'
      | None => insert_all (S i) F'
      end
  end.

(** [features_gdf.sindex.query(B)] without a predicate and without
    sorting: the positions in the order of the traversal. *)
Definition strtree_query (F : list (Feature G)) (B : G) : list nat :=
  query (build (insert_all 0 F)) (bounds B).

End STRtree.

(** The stored items below a node, in the order of the traversal. *)
Fixpoint leaves_of (node : Node) : list (BBox * nat) :=
  match node with
  | Leaf box item => [(box, item)]
  | Branch _ children => flat_map leaves_of children
  end.

(** The box of a stored item intersects the query box. *)
Definition hits (queryEnv : option BBox) (leaf : BBox * nat) : bool :=
  bbox_intersects (Some (fst leaf)) queryEnv.

(** The nodes that [build] makes: every parent carries the box that
    spans its children. *)
#[warnings="-register-all"] Inductive built : Node -> Prop :=
| built_leaf box item : built (Leaf box item)
| built_parent children :
    Forall built children -> built (parent children).

(** Every box that [inner] intersects, [outer] intersects. *)
Definition box_in (inner outer : option BBox) : Prop :=
  forall q, bbox_intersects inner q = true -> bbox_intersects outer q = true.

(** A node as its parent treats it: entered when its box intersects the
    query box. *)
Definition visit (q : option BBox) (node : Node) : list nat :=
  if bbox_intersects (getBounds node) q then query_node q node else [].

(** The stored items below the nodes of a level. *)
Definition level_leaves (level : list Node) : list (BBox * nat) :=
  flat_map leaves_of level.

(** The groups of children that become the parents of the next level. *)
Definition child_groups (nodes : list Node) : list (list Node) :=
  let number := length nodes in
  vertical_slices (sliceCount number)
                  (sliceCapacity number (sliceCount number)) (sortNodesX nodes)
  ≫= (fun slice => child_runs (length slice) (sortNodesY slice)).

(** ** Rectangles as geometries *)

(** The polygons [shapely.box(x0, y0, x1, y1)] builds from integer
    corners: the rectangle between the smaller and the larger of each pair
    of coordinates.  A box without width or without height has no area;
    it keeps its bounds and relates to other geometries as the segment or
    point it consists of. *)
Record Rect := mkRect { rx0 : Z; ry0 : Z; rx1 : Z; ry1 : Z }.

Module RectGeom.

Definition xlo (r : Rect) : Z := Z.min (rx0 r) (rx1 r).
Definition xhi (r : Rect) : Z := Z.max (rx0 r) (rx1 r).
Definition ylo (r : Rect) : Z := Z.min (ry0 r) (ry1 r).
Definition yhi (r : Rect) : Z := Z.max (ry0 r) (ry1 r).

Definition bounds (r : Rect) : option BBox :=
  Some (mkBBox (xlo r) (ylo r) (xhi r) (yhi r)).

Definition area (r : Rect) : Z :=
  ((xhi r - xlo r) * (yhi r - ylo r))%Z.

(** Every point of [a] is a point of [b]. *)
Definition covered (a b : Rect) : bool :=
  (xlo b <=? xlo a)%Z && (xhi a <=? xhi b)%Z
  && (ylo b <=? ylo a)%Z && (yhi a <=? yhi b)%Z.

(** The rectangles share a point. *)
Definition meet (a b : Rect) : bool :=
  (xlo a <=? xhi b)%Z && (xlo b <=? xhi a)%Z
  && (ylo a <=? yhi b)%Z && (ylo b <=? yhi a)%Z.

(** The interiors of the spans from [l1] to [h1] and from [l2] to [h2]
    share a point; the interior of a span without length is its one
    point. *)
Definition spans_meet (l1 h1 l2 h2 : Z) : bool :=
  if (l1 <? h1)%Z
  then if (l2 <? h2)%Z
       then (Z.max l1 l2 <? Z.min h1 h2)%Z
       else (l1 <? l2)%Z && (l2 <? h1)%Z
  else if (l2 <? h2)%Z
       then (l2 <? l1)%Z && (l1 <? h2)%Z
       else (l1 =? l2)%Z.

(** The interiors share a point. *)
Definition interiors_meet (a b : Rect) : bool :=
  spans_meet (xlo a) (xhi a) (xlo b) (xhi b)
  && spans_meet (ylo a) (yhi a) (ylo b) (yhi b).

Definition within (a b : Rect) : bool :=
  covered a b && interiors_meet a b.

Definition intersects (a b : Rect) : bool := meet a b.

Definition touches (a b : Rect) : bool :=
  meet a b && negb (interiors_meet a b).

(** [a] lies in the interior of [b], away from the edge of [b]. *)
Definition strictly_inside (a b : Rect) : bool :=
  (xlo b <? xlo a)%Z && (xhi a <? xhi b)%Z
  && (ylo b <? ylo a)%Z && (yhi a <? yhi b)%Z.

(** [a] has a point on the edge of a box [b] with width and height: it
    shares a point with [b] and is not strictly inside it. *)
Definition reaches_edge (a b : Rect) : bool :=
  meet a b && negb (strictly_inside a b).

End RectGeom.

(** ** Worlds a run of [featurelayer2shapefile_ogr] ends in *)

Section Runs.
Context {G : Type}.

Definition query_url_of (featurelayer_url : string) : string :=
  featurelayer_url +:+ query_suffix.

(** The part of [query_suffix] after the question mark, and the query it
    spells. *)
Definition query_string : string :=
  "where=1+%3D+1&outfields=*&f=json&resultRecordCount=1000&orderByFields=OBJECTID+ASC".

Definition notebook_query : Query :=
  mkQuery "1 = 1" "*" "json" 1000 "OBJECTID ASC".

(** After the query was printed and handed to [ogr.Open]. *)
Definition opened (url : string) (w : World G) : World G :=
  mkWorld (remote w) (disk w)
          (stdout w ++ [query_url_of url])
          (calls w ++ [COpen (query_url_of url)]).

(** The calls that replace the shapefile at [path] by [n] features. *)
Definition persist_calls (path : string) (present : bool) (n : nat) : list Call :=
  CExists path
  :: (if present then [CDelete path] else []) ++ [CCreate path; CCopyLayer path n].

(** After layer [l] was fetched and copied to [path]. *)
Definition persisted (url path : string) (l : list (Feature G)) (w : World G)
  : World G :=
  mkWorld (remote w) (<[path := l]> (disk w))
          (stdout w ++ [query_url_of url;
                        "Input Feature Count: " +:+ Str.format_thousands (length l);
                        "Output Feature Count: " +:+ Str.format_thousands (length l)
                          +:+ " at " +:+ path])
          (calls w ++ COpen (query_url_of url)
             :: persist_calls path (bool_decide (is_Some (disk w !! path))) (length l)).

End Runs.

(** ** The loop's effect on the disk, row by row *)

Section Loop.
Context {G : Type}.
Variable url_feature_server download_folder : string.
Variable id_list : PyObj.
Variable secure_filename : string -> string.

(** The layer [ds.GetLayerByIndex(0)] yields for a row's layer URL, if
    the source opens and has one. *)
Definition row_layer (r : gmap string (Endpoint G)) (row : LayerRow)
  : option (list (Feature G)) :=
  open_datasource r (query_url_of (layer_url_of url_feature_server row))
  ≫= (fun ds => ds !! 0).

(** A row the loop gets past: it is skipped, or its layer opens. *)
Definition row_passes (r : gmap string (Endpoint G)) (row : LayerRow) : Prop :=
  skipped id_list row = true \/ is_Some (row_layer r row).

(** The disk after the rows were processed in order: every row that is
    not skipped puts its layer at its path; the first row whose layer
    does not open ends the loop. *)
Fixpoint disk_after (r : gmap string (Endpoint G)) (rows : list LayerRow)
    (d : gmap string (list (Feature G))) : gmap string (list (Feature G)) :=
  match rows with
  | [] => d
  | row :: rest =>
      if skipped id_list row then disk_after r rest d
      else match row_layer r row with
           | Some l =>
               disk_after r rest
                 (<[shp_path_of download_folder secure_filename row := l]> d)
           | None => d
           end
  end.

End Loop.

(** ** Paths of the clip notebook *)

(** [os.path.basename(p)] on a POSIX system: the text after the last
    separator. *)
Fixpoint os_path_basename (p : string) : string :=
  match p with
  | EmptyString => EmptyString
  | String a p' =>
      if Ascii.eqb a "/" then os_path_basename p'
      else if Str.contains "/" p' then os_path_basename p'
      else p
  end.

Definition nld_shapefile_path (download_folder : string) : string :=
  os_path_join download_folder "Leveed_Areas.shp".

Definition nld_clipped_shp_path (download_folder clipped_folder : string)
  : string :=
  os_path_join clipped_folder (os_path_basename (nld_shapefile_path download_folder)).

(** ** Sample data *)

(** Small concrete inputs on which the statements below are run. *)

Definition levee (i : Z) : Feature unit := mkFeature i tt [("NAME", AttrNull)].

Definition sample_coll : list (Feature unit) :=
  [levee 5; levee 3; levee 1; levee 4; levee 2].

Definition sample_url : string := "https://nld.example/FeatureServer/4/".

Definition sample_path : string := "/home/user/download/Leveed_Areas.shp".

Definition world_with (ep : Endpoint unit) (files : gmap string (list (Feature unit)))
  : World unit :=
  mkWorld {[ sample_url +:+ "/query/" := ep ]} files [] [].

(** The endpoint serves [sample_coll], and an older shapefile is at the
    target path. *)
Definition serving_world : World unit :=
  world_with (Static sample_coll) {[ sample_path := [levee 9] ]}.

Definition down_world : World unit :=
  world_with Failing {[ sample_path := [levee 9] ]}.

Definition garbled_world : World unit :=
  world_with Garbled {[ sample_path := [levee 9] ]}.

(** A collection of 2500 records, and an endpoint that serves it but
    answers only the first page request of a fetch. *)
Definition long_coll : list (Feature unit) :=
  (fun i => levee (Z.of_nat i)) <$> seq 1 2500.

Definition cut_world : World unit :=
  world_with (Interrupted long_coll 1) ∅.

Definition sample_server : string := "https://nld.example/FeatureServer/".

Definition sample_folder : string := "/home/user/download".

Definition sample_row : LayerRow := mkLayerRow "Leveed Areas" 4 "esriGeometryPolygon".

(** The layer of [sample_row] serves [sample_coll]; the disk is empty. *)
Definition table_world : World unit :=
  mkWorld {[ "https://nld.example/FeatureServer//4//query/" := Static sample_coll ]}
          ∅ [] [].

Definition parcel (i : Z) (x0 y0 x1 y1 : Z) : Feature Rect :=
  mkFeature i (mkRect x0 y0 x1 y1) [("NAME", AttrNull)].

(** The basin is the square from (0,0) to (10,10).  Parcels 1 and 4 lie
    inside it, parcel 2 is far away, parcel 3 shares the edge x = 10 with
    the basin from outside, and parcel 5 straddles the corner (10,10). *)
Definition basin : Feature Rect := parcel 100 0 0 10 10.

Definition sample_features : list (Feature Rect) :=
  [parcel 1 1 1 3 3; parcel 2 20 20 22 22; parcel 3 10 2 12 4;
   parcel 4 5 5 7 7; parcel 5 8 8 12 12].

(** A boundary polygon without area. *)
Definition flat_basin : Feature Rect := parcel 101 0 0 0 10.

(** A frame whose third row lies below and to the left of its first. *)
Definition upstream_frame : list (Feature Rect) :=
  [parcel 1 5 5 7 7; parcel 2 20 20 22 22; parcel 3 1 1 3 3].

(** A boundary record stored without a shape. *)
Definition unshaped_row : Feature (option Rect) := mkFeature 102 None [].

(** Two layers whose names differ only in a character that
    [secure_filename] turns into an underscore, each with its own
    collection. *)
Definition areas_row : LayerRow := mkLayerRow "Leveed Areas" 4 "esriGeometryPolygon".

Definition areas_twin_row : LayerRow := mkLayerRow "Leveed/Areas" 5 "esriGeometryPolygon".

Definition closed_row : LayerRow := mkLayerRow "Closure Structures" 6 "esriGeometryPoint".

Definition twin_world : World unit :=
  mkWorld {[ "https://nld.example/FeatureServer//4//query/" := Static [levee 2; levee 1];
             "https://nld.example/FeatureServer//5//query/" := Static [levee 8; levee 7; levee 9];
             "https://nld.example/FeatureServer//6//query/" := Failing ]}
          ∅ [] [].

(** * Properties *)

(** ** Strings *)

Lemma append_cons (a : ascii) (s t : string) :
  String a s +:+ t = String a (s +:+ t).
Proof. reflexivity. Qed.

Lemma append_assoc (s t u : string) : (s +:+ t) +:+ u = s +:+ (t +:+ u).
Proof.
  induction s as [|a s IH]; [reflexivity|].
  rewrite !append_cons. f_equal. exact IH.
Qed.

Lemma partition_absent c s :
  Str.contains c s = false -> Str.partition c s = (s, None).
Proof.
  induction s as [|a s IH]; simpl; [reflexivity|].
  intros Hc. apply orb_false_iff in Hc as [Ha Hs].
  rewrite Ha, (IH Hs). reflexivity.
Qed.

Lemma partition_app c s t :
  Str.contains c s = false ->
  Str.partition c (s +:+ String c t) = (s, Some t).
Proof.
  induction s as [|a s IH].
  - intros _. change ("" +:+ String c t) with (String c t). simpl.
    rewrite Ascii.eqb_refl. reflexivity.
  - rewrite append_cons. simpl.
    intros Hc. apply orb_false_iff in Hc as [Ha Hs].
    rewrite Ha, (IH Hs). reflexivity.
Qed.

Lemma contains_app c s t :
  Str.contains c (s +:+ t) = Str.contains c s || Str.contains c t.
Proof.
  induction s as [|a s IH]; [reflexivity|].
  rewrite append_cons. simpl. rewrite IH. apply orb_assoc.
Qed.

Example split_example :
  Str.split "&" "a=1&b=2" = ["a=1"; "b=2"].
Proof. reflexivity. Qed.

Example unquote_example :
  Str.unquote_plus "1+%3D+1" = "1 = 1".
Proof. reflexivity. Qed.

Example thousands_example :
  Str.format_thousands 4321 = "4,321" /\ Str.format_thousands 999 = "999".
Proof. split; reflexivity. Qed.

Lemma query_suffix_split : query_suffix = "/query/" +:+ String "?" query_string.
Proof. reflexivity. Qed.

Lemma query_string_parsed :
  parse_query (parse_qs query_string) = Some notebook_query.
Proof. vm_compute. reflexivity. Qed.

(** ** The paged fetch *)

Section ServiceFacts.
Context {G : Type}.
Implicit Types (coll recs : list (Feature G)) (q : Query).

#[local] Instance by_id_trans : Transitive (@by_id G).
Proof. intros f g h. unfold by_id. lia. Qed.

#[local] Instance by_id_total : Total (@by_id G).
Proof. intros f g. unfold by_id. lia. Qed.

(** Paging over a fixed sequence [L] by offsets returns what is left of
    [L] from the first offset on, as soon as the fuel exceeds the number
    of records left. *)
Lemma fetch_pages_drop (L : list (Feature G)) (page_size : nat) :
  0 < page_size ->
  forall fuel offset,
    length L - offset < fuel ->
    fetch_pages fuel (fun o => take page_size (drop o L))
                page_size (length L) offset
    = Some (drop offset L).
Proof.
  intros Hpos. induction fuel as [|fuel IH]; intros offset Hfuel; [lia|].
  cbn [fetch_pages].
  pose proof (length_take (drop offset L) page_size) as Hlen.
  rewrite length_drop in Hlen.
  destruct (orb _ _) eqn:Hstop.
  - f_equal. apply take_ge. rewrite length_drop.
    apply orb_true_iff in Hstop as [Hshort | Htotal].
    + apply Nat.ltb_lt in Hshort. lia.
    + apply Nat.leb_le in Htotal. lia.
  - apply orb_false_iff in Hstop as [Hfull Hmore].
    apply Nat.ltb_ge in Hfull. apply Nat.leb_gt in Hmore.
    rewrite IH by lia. cbn.
    rewrite <- (drop_drop L page_size offset), take_drop. reflexivity.
Qed.

Lemma strictly_ascending (l : list Z) :
  StronglySorted Z.le l -> NoDup l -> StronglySorted Z.lt l.
Proof.
  induction 1 as [|a l Hsorted IH Hall]; intros Hnd; constructor.
  - apply IH. now apply NoDup_cons_1_2 in Hnd.
  - apply NoDup_cons_1_1 in Hnd.
    rewrite Forall_forall in Hall |- *. intros b Hb.
    assert (a <> b) by (intros ->; exact (Hnd Hb)).
    specialize (Hall b Hb). lia.
Qed.

Lemma served_order coll :
  StronglySorted Z.le (OBJECTID <$> merge_sort by_id coll).
Proof.
  apply (StronglySorted_fmap OBJECTID by_id Z.le); [auto|].
  apply StronglySorted_merge_sort; apply _.
Qed.

Lemma served_order_strict coll :
  NoDup (OBJECTID <$> coll) ->
  StronglySorted Z.lt (OBJECTID <$> merge_sort by_id coll).
Proof.
  intros Hnd. apply strictly_ascending; [apply served_order|].
  now rewrite (merge_sort_Permutation by_id coll).
Qed.

(** The paged fetch returns; its result is the whole collection in
    identifier order, whatever the positive page size. *)
Lemma fetch_all_sorted q coll :
  0 < q_count q -> fetch_all q coll = Some (merge_sort by_id coll).
Proof.
  intros Hpos. unfold fetch_all, serve_page.
  assert (Hlen : length coll = length (merge_sort by_id coll))
    by now rewrite (merge_sort_Permutation by_id coll).
  rewrite Hlen.
  rewrite (fetch_pages_drop (merge_sort by_id coll) (q_count q) Hpos) by lia.
  reflexivity.
Qed.

(** A page never holds more records than the query asks for. *)
Lemma serve_page_bound coll q offset :
  length (serve_page coll q offset) <= q_count q.
Proof. unfold serve_page. rewrite length_take. lia. Qed.

End ServiceFacts.

(** ** Runs of [featurelayer2shapefile_ogr] *)

Section RunFacts.
Context {G : Type}.
Implicit Types (w : World G) (url path : string).

(** The outcome of a run is decided by what [ogr.Open] evaluates to. *)
Lemma featurelayer2shapefile_ogr_run url path w :
  featurelayer2shapefile_ogr url path w
  = match open_datasource (remote w) (query_url_of url) with
    | None =>
        Raise (AttributeError "'NoneType' object has no attribute 'GetLayerByIndex'")
              (opened url w)
    | Some [] =>
        Raise (AttributeError "'NoneType' object has no attribute 'GetFeatureCount'")
              (opened url w)
    | Some (l :: _) => Return tt (persisted url path l w)
    end.
Proof.
  unfold featurelayer2shapefile_ogr, query_url_of, opened, persisted, persist_calls.
  unfold bind at 1, print at 1, modify. cbn [remote disk stdout calls].
  unfold bind at 1, ogr_Open, bind at 1, log, modify, gets.
  cbn [remote disk stdout calls].
  destruct (open_datasource (remote w) (url +:+ query_suffix)) as [[|l ds]|];
    [reflexivity| |reflexivity].
  cbn -[Str.format_thousands String.append].
  destruct (bool_decide (is_Some (disk w !! path))) eqn:Hpresent;
    cbn -[Str.format_thousands String.append].
  - rewrite lookup_delete_eq. cbn -[Str.format_thousands String.append].
    rewrite insert_delete_eq, <- !app_assoc. reflexivity.
  - apply bool_decide_eq_false in Hpresent.
    rewrite <- eq_None_not_Some in Hpresent. rewrite Hpresent.
    cbn -[Str.format_thousands String.append].
    rewrite <- !app_assoc. reflexivity.
Qed.

(** [ogr.Open] cuts the URL at its first question mark. *)
Lemma query_url_partition url :
  Str.contains "?" url = false ->
  Str.partition "?" (query_url_of url) = (url +:+ "/query/", Some query_string).
Proof.
  intros Hurl. unfold query_url_of.
  rewrite query_suffix_split, <- append_assoc.
  apply partition_app. rewrite contains_app, Hurl. reflexivity.
Qed.

Lemma open_static url (r : gmap string (Endpoint G)) coll :
  Str.contains "?" url = false ->
  r !! (url +:+ "/query/") = Some (Static coll) ->
  open_datasource r (query_url_of url) = Some [merge_sort by_id coll].
Proof.
  intros Hurl Hep. unfold open_datasource.
  rewrite (query_url_partition url Hurl), Hep, query_string_parsed.
  cbn [mbind option_bind]. change (in_contract notebook_query) with true.
  cbn iota. rewrite fetch_all_sorted; [reflexivity|].
  cbn. lia.
Qed.

Lemma open_unserved url (r : gmap string (Endpoint G)) :
  Str.contains "?" url = false ->
  (forall coll, r !! (url +:+ "/query/") <> Some (Static coll)) ->
  (forall coll answered,
      r !! (url +:+ "/query/") <> Some (Interrupted coll (S answered))) ->
  open_datasource r (query_url_of url) = None.
Proof.
  intros Hurl Hep Hcut. unfold open_datasource.
  rewrite (query_url_partition url Hurl).
  destruct (r !! (url +:+ "/query/")) as [[coll| | |coll [|answered]]|];
    try reflexivity.
  - now destruct (Hep coll).
  - now destruct (Hcut coll answered).
Qed.

(** The features of an interrupted fetch are those of the pages that
    were answered. *)
Lemma fetch_pages_until (L : list (Feature G)) (page_size answered : nat) :
  0 < page_size ->
  forall fuel done,
    done <= answered ->
    length L - done * page_size < fuel ->
    fetch_pages fuel
                (fun o => if o <? answered * page_size
                          then take page_size (drop o L) else [])
                page_size (length L) (done * page_size)
    = Some (take ((answered - done) * page_size) (drop (done * page_size) L)).
Proof.
  intros Hpos. induction fuel as [|fuel IH]; intros done Hdone Hfuel; [lia|].
  cbn [fetch_pages].
  destruct (done * page_size <? answered * page_size) eqn:Hin.
  - apply Nat.ltb_lt in Hin. assert (done < answered) by nia.
    pose proof (length_take (drop (done * page_size) L) page_size) as Hlen.
    rewrite length_drop in Hlen.
    destruct (orb _ _) eqn:Hstop.
    + f_equal. rewrite !take_ge; [reflexivity|..];
        rewrite length_drop;
        apply orb_true_iff in Hstop as [Hshort | Htotal];
        [apply Nat.ltb_lt in Hshort|apply Nat.leb_le in Htotal
        |apply Nat.ltb_lt in Hshort|apply Nat.leb_le in Htotal]; nia.
    + apply orb_false_iff in Hstop as [Hfull Hmore].
      apply Nat.ltb_ge in Hfull. apply Nat.leb_gt in Hmore.
      replace (done * page_size + page_size) with (S done * page_size) by lia.
      rewrite IH by nia. cbn [fmap option_fmap option_map].
      f_equal.
      replace (S done * page_size) with (done * page_size + page_size) by lia.
      rewrite <- (drop_drop L page_size (done * page_size)), take_take_drop.
      f_equal. nia.
  - apply Nat.ltb_ge in Hin. assert (answered = done) as -> by nia.
    cbn [length]. replace (0 <? page_size) with true
      by (symmetry; apply Nat.ltb_lt; lia).
    cbn [orb]. now rewrite Nat.sub_diag.
Qed.

Lemma fetch_interrupted_prefix (q : Query) (coll : list (Feature G)) answered :
  0 < q_count q ->
  fetch_interrupted q coll answered
  = Some (take (answered * q_count q) (merge_sort by_id coll)).
Proof.
  intros Hpos. unfold fetch_interrupted, serve_page_until, serve_page.
  assert (Hlen : length coll = length (merge_sort by_id coll))
    by now rewrite (merge_sort_Permutation by_id coll).
  rewrite Hlen.
  assert (Hfuel : length (merge_sort by_id coll) - 0 * q_count q
                  < S (length (merge_sort by_id coll))) by lia.
  pose proof (fetch_pages_until (merge_sort by_id coll) (q_count q) answered
                Hpos (S (length (merge_sort by_id coll))) 0
                (Nat.le_0_l _) Hfuel) as Hfetch.
  rewrite Nat.sub_0_r in Hfetch. exact Hfetch.
Qed.

(** An endpoint that answers the first page requests only still opens:
    the layer holds the records of the answered pages. *)
Lemma open_interrupted url (r : gmap string (Endpoint G))
    (coll : list (Feature G)) answered :
  Str.contains "?" url = false ->
  0 < answered ->
  r !! (url +:+ "/query/") = Some (Interrupted coll answered) ->
  open_datasource r (query_url_of url)
  = Some [take (answered * 1000) (merge_sort by_id coll)].
Proof.
  intros Hurl Hpos Hep. unfold open_datasource.
  rewrite (query_url_partition url Hurl), Hep, query_string_parsed.
  cbn [mbind option_bind]. change (in_contract notebook_query) with true.
  replace (0 <? answered) with true by (symmetry; apply Nat.ltb_lt; lia).
  cbn [andb]. rewrite fetch_interrupted_prefix by (cbn; lia).
  reflexivity.
Qed.

(** What a run adds to the call log, and where it touches the disk. *)
Lemma run_calls url path w :
  exists new,
    calls (final (featurelayer2shapefile_ogr url path w)) = calls w ++ new
    /\ COpen (query_url_of url) ∈ new
    /\ Forall (fun c => forall p, call_path c = Some p -> p = path) new
    /\ (forall w', featurelayer2shapefile_ogr url path w = Return tt w' ->
         CCreate path ∈ new /\ is_Some (disk w' !! path)
         /\ forall p, p <> path -> disk w' !! p = disk w !! p).
Proof.
  rewrite featurelayer2shapefile_ogr_run.
  destruct (open_datasource (remote w) (query_url_of url)) as [[|l ds]|];
    cbn [final opened persisted calls].
  1, 3: exists [COpen (query_url_of url)];
        (split; [reflexivity|]); (split; [apply list_elem_of_here|]);
        (split; [|discriminate]);
        apply Forall_singleton; discriminate.
  eexists. split; [reflexivity|]. split; [apply list_elem_of_here|]. split.
  - unfold persist_calls.
    destruct (bool_decide (is_Some (disk w !! path)));
      repeat constructor; cbn; congruence.
  - intros w' [= <-]. cbn [persisted disk]. split; [|split].
    + unfold persist_calls. destruct (bool_decide _); cbn [app];
        rewrite !elem_of_cons; auto 6.
    + rewrite lookup_insert_eq. eauto.
    + intros p Hp. now apply lookup_insert_ne.
Qed.

End RunFacts.

(** ** The download: claims C1, C6, C8 and C9 *)

Section DownloadClaims.
Context {G : Type}.
Implicit Types (w : World G) (url path : string) (coll : list (Feature G)).

(** C1.  For every positive page size and every static remote
    collection, the paged fetch returns, and returns every record of the
    collection exactly once in ascending identifier order: the result is
    the collection sorted by identifier, whatever the page size, and the
    order is strict when the identifiers are distinct.  A run of
    [featurelayer2shapefile_ogr] against an endpoint serving the
    collection copies exactly that sequence to the shapefile. *)
Theorem paged_fetch_all_records (page_size : nat) (q : Query) coll :
  0 < page_size ->
  q_count q = page_size ->
  exists recs,
    fetch_all q coll = Some recs
    /\ length recs = length coll
    /\ recs ≡ₚ coll
    /\ StronglySorted Z.le (OBJECTID <$> recs)
    /\ (NoDup (OBJECTID <$> coll) -> StronglySorted Z.lt (OBJECTID <$> recs))
    /\ recs = merge_sort by_id coll
    /\ forall url path w,
         Str.contains "?" url = false ->
         remote w !! (url +:+ "/query/") = Some (Static coll) ->
         exists w', featurelayer2shapefile_ogr url path w = Return tt w'
                    /\ disk w' !! path = Some recs.
Proof.
  intros Hpos Hq. exists (merge_sort by_id coll).
  split; [apply fetch_all_sorted; lia|].
  split; [now rewrite (merge_sort_Permutation by_id coll)|].
  split; [apply merge_sort_Permutation|].
  split; [apply served_order|].
  split; [apply served_order_strict|].
  split; [reflexivity|].
  intros url path w Hurl Hep.
  rewrite featurelayer2shapefile_ogr_run, (open_static url _ coll Hurl Hep).
  eexists. split; [reflexivity|].
  cbn [persisted disk]. apply lookup_insert_eq.
Qed.

(** C8.  Every run hands exactly one URL to [ogr.Open]: the layer URL
    followed by a fixed query.  The query has the always-true where
    clause [1 = 1], asks for all fields, orders by [OBJECTID] ascending and
    sets the page size to 1000; neither argument of the function changes
    it.  No page served for it holds more than 1000 records. *)
Theorem fetch_query_fixed url path w :
  exists new,
    calls (final (featurelayer2shapefile_ogr url path w)) = calls w ++ new
    /\ List.filter is_open new
       = [COpen (url +:+ "/query/?where=1+%3D+1&outfields=*&f=json&resultRecordCount=1000&orderByFields=OBJECTID+ASC")]
    /\ parse_query (parse_qs "where=1+%3D+1&outfields=*&f=json&resultRecordCount=1000&orderByFields=OBJECTID+ASC")
       = Some (mkQuery "1 = 1" "*" "json" 1000 "OBJECTID ASC")
    /\ in_contract (mkQuery "1 = 1" "*" "json" 1000 "OBJECTID ASC") = true
    /\ forall coll offset,
         length (serve_page coll (mkQuery "1 = 1" "*" "json" 1000 "OBJECTID ASC") offset)
         <= 1000.
Proof.
  rewrite featurelayer2shapefile_ogr_run.
  assert (Hrest : forall (present : bool) n,
             List.filter is_open (persist_calls path present n) = [])
    by (intros [] n; reflexivity).
  destruct (open_datasource (remote w) (query_url_of url)) as [[|l ds]|];
    cbn [final opened persisted calls].
  - exists [COpen (query_url_of url)]. repeat split; auto using query_string_parsed.
    intros coll offset. apply (serve_page_bound coll notebook_query).
  - eexists. split; [reflexivity|]. cbn [List.filter is_open]. rewrite Hrest.
    repeat split; auto using query_string_parsed.
    intros coll offset. apply (serve_page_bound coll notebook_query).
  - exists [COpen (query_url_of url)]. repeat split; auto using query_string_parsed.
    intros coll offset. apply (serve_page_bound coll notebook_query).
Qed.

(** C9.  Whenever the layer opens, the run succeeds whatever the disk
    held before, and afterwards the shapefile at the target path holds
    exactly the fetched layer while every other path is as before.  If a
    shapefile was at the target path, it is deleted immediately before the
    new data source is created; if none was, nothing is deleted. *)
Theorem existing_shapefile_replaced url path w (l : list (Feature G)) rest :
  open_datasource (remote w) (query_url_of url) = Some (l :: rest) ->
  exists w' new,
    featurelayer2shapefile_ogr url path w = Return tt w'
    /\ disk w' !! path = Some l
    /\ (forall p, p <> path -> disk w' !! p = disk w !! p)
    /\ calls w' = calls w ++ new
    /\ (is_Some (disk w !! path) ->
        exists pre post, new = pre ++ CDelete path :: CCreate path :: post)
    /\ (disk w !! path = None -> CDelete path ∉ new).
Proof.
  intros Hopen. rewrite featurelayer2shapefile_ogr_run, Hopen.
  eexists _, _. split; [reflexivity|]. cbn [persisted disk calls].
  split; [apply lookup_insert_eq|].
  split; [intros p Hp; now apply lookup_insert_ne|].
  split; [reflexivity|]. split.
  - intros Hsome. rewrite (bool_decide_eq_true_2 _ Hsome).
    exists [COpen (query_url_of url); CExists path], [CCopyLayer path (length l)].
    reflexivity.
  - intros Hnone. rewrite bool_decide_eq_false_2 by (rewrite Hnone; apply is_Some_None).
    unfold persist_calls. cbn [app]. rewrite !elem_of_cons, elem_of_nil.
    intros [Hc | [Hc | [Hc | [Hc | []]]]]; discriminate Hc.
Qed.

(** C6, as the notebook behaves.  When the first request of the fetch
    fails, because the endpoint does not answer or answers with something
    that is not a feature page, [ogr.Open] evaluates to [None] and the run
    ends at [ds.GetLayerByIndex] with an [AttributeError] that carries no
    offset; the disk is as it was.  When the endpoint answers the first
    [answered] page requests and fails a later one, the run returns
    normally: the shapefile holds the records of the answered pages, the
    first [answered * 1000] in ascending identifier order, and the failed
    page and every record after it are left out without any error. *)
Theorem page_failure_outcomes url path w :
  Str.contains "?" url = false ->
  (remote w !! (url +:+ "/query/") = Some Failing
   \/ remote w !! (url +:+ "/query/") = Some Garbled
   \/ (exists coll, remote w !! (url +:+ "/query/") = Some (Interrupted coll 0)) ->
   featurelayer2shapefile_ogr url path w
   = Raise (AttributeError "'NoneType' object has no attribute 'GetLayerByIndex'")
           (opened url w)
   /\ disk (opened url w) = disk w
   /\ calls (opened url w) = calls w ++ [COpen (query_url_of url)])
  /\ (forall coll answered,
        0 < answered ->
        remote w !! (url +:+ "/query/") = Some (Interrupted coll answered) ->
        exists w' l,
          featurelayer2shapefile_ogr url path w = Return tt w'
          /\ disk w' !! path = Some l
          /\ l = take (answered * 1000) (merge_sort by_id coll)
          /\ length l = Nat.min (answered * 1000) (length coll)
          /\ (forall p, p <> path -> disk w' !! p = disk w !! p)).
Proof.
  intros Hurl. split.
  - intros Hep. rewrite featurelayer2shapefile_ogr_run.
    rewrite (open_unserved url (remote w) Hurl); [repeat split|..].
    + intros coll Hstatic.
      destruct Hep as [Hep | [Hep | [coll' Hep]]]; congruence.
    + intros coll answered Hcut.
      destruct Hep as [Hep | [Hep | [coll' Hep]]]; congruence.
  - intros coll answered Hpos Hep.
    rewrite featurelayer2shapefile_ogr_run.
    rewrite (open_interrupted url (remote w) coll answered Hurl Hpos Hep).
    eexists _, _. split; [reflexivity|]. cbn [persisted disk].
    split; [apply lookup_insert_eq|]. split; [reflexivity|]. split.
    + rewrite length_take.
      now rewrite (Permutation_length (merge_sort_Permutation by_id coll)).
    + intros p Hp. now apply lookup_insert_ne.
Qed.

End DownloadClaims.

(** ** The layer loop: claim C10 *)

Section RowClaims.
Context {G : Type}.
Variable url_feature_server download_folder : string.
Variable secure_filename : string -> string.
Implicit Types (id_list : PyObj) (row : LayerRow) (w : World G).

(** A row is either skipped, or announced and downloaded. *)
Lemma row_func_run id_list row w :
  row_func url_feature_server download_folder id_list secure_filename row w
  = if skipped id_list row then Return tt w
    else featurelayer2shapefile_ogr
           (layer_url_of url_feature_server row)
           (shp_path_of download_folder secure_filename row)
           (announced download_folder secure_filename row w).
Proof.
  unfold row_func, skipped.
  destruct (negb (is_None id_list) && type_is_list id_list
            && negb (py_in (id row) id_list)); [reflexivity|].
  unfold bind, print, modify, announced, shp_path_of, layer_url_of.
  cbn [remote disk stdout calls]. rewrite <- app_assoc. reflexivity.
Qed.

(** The loop passes over skipped rows without a trace. *)
Lemma df_apply_skipped id_list rows w :
  Forall (fun row => skipped id_list row = true) rows ->
  df_apply url_feature_server download_folder id_list secure_filename rows w
  = Return tt w.
Proof.
  induction 1 as [|row rows Hrow _ IH]; [reflexivity|].
  cbn [df_apply]. unfold bind. rewrite row_func_run, Hrow. exact IH.
Qed.


(** C10.  With a list as allow-list, a row whose id is not in the list
    leaves the world as it was: nothing is fetched, written or printed.
    A row whose id is in the list, and every row when the allow-list is
    [None] or is not a list, is announced and handed to
    [featurelayer2shapefile_ogr], which opens the layer's query URL. *)
Theorem allow_list_gates_download id_list row w :
  (forall items,
      id_list = PyList items -> id row ∉ items ->
      row_func url_feature_server download_folder id_list secure_filename row w
      = Return tt w)
  /\ ((exists items, id_list = PyList items /\ id row ∈ items)
      \/ id_list = PyNone
      \/ (exists start stop, id_list = PyRange start stop) ->
      row_func url_feature_server download_folder id_list secure_filename row w
      = featurelayer2shapefile_ogr
          (url_feature_server +:+ "/" +:+ Str.of_Z (id row) +:+ "/")
          (os_path_join download_folder (secure_filename (name row) +:+ ".shp"))
          (announced download_folder secure_filename row w)
      /\ COpen (query_url_of (url_feature_server +:+ "/" +:+ Str.of_Z (id row) +:+ "/"))
         ∈ calls (final (row_func url_feature_server download_folder id_list
                                  secure_filename row w))).
Proof.
  split.
  - intros items -> Hout. rewrite row_func_run. unfold skipped. cbn.
    now rewrite bool_decide_eq_false_2.
  - intros Hin. rewrite row_func_run.
    assert (Hgo : skipped id_list row = false).
    { unfold skipped.
      destruct Hin as [(items & -> & Hin) | [-> | (start & stop & ->)]];
        cbn; [|reflexivity..].
      now rewrite bool_decide_eq_true_2. }
    rewrite Hgo. split; [reflexivity|].
    destruct (run_calls (layer_url_of url_feature_server row)
                        (shp_path_of download_folder secure_filename row)
                        (announced download_folder secure_filename row w))
      as (new & -> & Hopen & _).
    apply elem_of_app. right. exact Hopen.
Qed.

End RowClaims.

(** ** pandas indexing *)

Section IndexingFacts.
Context {A : Type}.
Implicit Types (rows cand : list A) (positions : list nat).

Lemma mask_select_filter (p : A -> bool) rows :
  mask_select rows (map p rows) = List.filter p rows.
Proof.
  induction rows as [|r rows IH]; [reflexivity|].
  cbn. rewrite IH. reflexivity.
Qed.

Lemma filter_sublist (p : A -> bool) rows :
  List.filter p rows `sublist_of` rows.
Proof.
  induction rows as [|r rows IH]; cbn; [constructor|].
  destruct (p r); now constructor.
Qed.

(** [iloc] succeeds exactly when every position is in range, and then
    returns the rows at the positions, position by position. *)
Lemma iloc_in_range rows positions :
  Forall (fun i => i < length rows) positions ->
  exists cand, iloc rows positions = Ok cand
               /\ Forall2 (fun i r => rows !! i = Some r) positions cand.
Proof.
  intros Hrange. unfold iloc.
  destruct (mapM (fun i => rows !! i) positions) as [cand|] eqn:Hmap.
  - exists cand. split; [reflexivity|]. now apply mapM_Some.
  - exfalso. apply eq_None_not_Some in Hmap. apply Hmap, mapM_is_Some.
    eapply Forall_impl; [exact Hrange|].
    intros i Hi. now apply lookup_lt_is_Some.
Qed.

(** Rows taken at ascending positions keep the order of the frame. *)
Lemma ascending_rows_sublist rows positions cand :
  StronglySorted lt positions ->
  Forall2 (fun i r => rows !! i = Some r) positions cand ->
  cand `sublist_of` rows.
Proof.
  intros Hsorted Hrows.
  enough (Hfrom : forall k, Forall (le k) positions -> cand `sublist_of` drop k rows).
  { apply (Hfrom 0). apply Forall_forall. intros; lia. }
  induction Hrows as [|i r positions cand Hi Hrest IH]; intros k Hk.
  - apply sublist_nil_l.
  - apply StronglySorted_inv in Hsorted as [Hsorted Hi_lt].
    apply Forall_cons in Hk as [Hki _].
    rewrite <- (take_drop (i - k) (drop k rows)), drop_drop.
    replace (k + (i - k)) with i by lia.
    apply sublist_inserts_l. rewrite (drop_S rows r i Hi).
    apply sublist_skip, (IH Hsorted).
    eapply Forall_impl; [exact Hi_lt|]. intros j Hj. cbn in Hj. lia.
Qed.

End IndexingFacts.

(** ** [secure_filename] *)

Lemma lstrip_Forall (P : ascii -> Prop) (p : ascii -> bool) cs :
  Forall P cs -> Forall P (Werkzeug.lstrip p cs).
Proof.
  induction 1 as [|c cs Hc Hcs IH]; cbn; [constructor|].
  destruct (p c); [exact IH|now constructor].
Qed.

(** Whatever characters the conversion to ASCII leaves, the cleaned
    name holds only letters, digits, underscores, dots and hyphens. *)
Lemma clean_safe (cs : list ascii) :
  Forall (fun c => Werkzeug.is_safe c = true)
         (String.list_ascii_of_string (Werkzeug.clean cs)).
Proof.
  unfold Werkzeug.clean, Werkzeug.strip.
  rewrite String.list_ascii_of_string_of_list_ascii.
  apply Forall_rev, lstrip_Forall, Forall_rev, lstrip_Forall.
  apply Forall_forall. intros c Hc.
  now apply list_elem_of_In, filter_In in Hc as [_ Hc].
Qed.

Lemma secure_filename_safe (filename : string) :
  Forall (fun c => Werkzeug.is_safe c = true)
         (String.list_ascii_of_string (Werkzeug.secure_filename filename)).
Proof. apply clean_safe. Qed.

(** A name of safe characters holds no separator. *)
Lemma safe_no_sep (s : string) :
  Forall (fun c => Werkzeug.is_safe c = true) (String.list_ascii_of_string s) ->
  Str.contains "/" s = false.
Proof.
  induction s as [|c s IH]; [reflexivity|].
  cbn [String.list_ascii_of_string Str.contains]. intros Hsafe.
  apply Forall_cons in Hsafe as [Hc Hs]. rewrite (IH Hs), orb_false_r.
  destruct (Ascii.eqb c "/") eqn:Hsep; [|reflexivity].
  apply Ascii.eqb_eq in Hsep as ->. discriminate Hc.
Qed.

(** The model of werkzeug's function never leaves a separator in a
    name. *)
Lemma secure_filename_no_sep (filename : string) :
  Str.contains "/" (Werkzeug.secure_filename filename) = false.
Proof. apply safe_no_sep, secure_filename_safe. Qed.

Example secure_filename_examples :
  Werkzeug.secure_filename "Leveed Areas" = "Leveed_Areas"
  /\ Werkzeug.secure_filename "../../etc/passwd" = "etc_passwd"
  /\ Werkzeug.secure_filename "  Levee: Cross/Sections (2021).v2 " = "Levee_Cross_Sections_2021.v2".
Proof. repeat split; vm_compute; reflexivity. Qed.

(** ** Paths, and claim C7 *)

Lemma basename_plain (b : string) :
  Str.contains "/" b = false -> os_path_basename b = b.
Proof.
  destruct b as [|c b]; [reflexivity|]. cbn [Str.contains os_path_basename].
  intros Hb. apply orb_false_iff in Hb as [-> ->]. reflexivity.
Qed.

Lemma basename_after_sep (a b : string) :
  Str.contains "/" b = false ->
  os_path_basename (a +:+ String "/" b) = b.
Proof.
  intros Hb. induction a as [|c a IH].
  - change ("" +:+ String "/" b) with (String "/" b).
    cbn [os_path_basename]. rewrite Ascii.eqb_refl. now apply basename_plain.
  - rewrite append_cons. cbn [os_path_basename].
    destruct (Ascii.eqb c "/"); [exact IH|].
    rewrite contains_app. cbn [Str.contains]. rewrite Ascii.eqb_refl.
    rewrite orb_true_r. exact IH.
Qed.

Lemma ends_with_sep_split (a : string) :
  ends_with_sep a = true -> exists a', a = a' +:+ "/".
Proof.
  induction a as [|c a IH]; [discriminate|].
  destruct a as [|c' a].
  - cbn. intros Hc. apply Ascii.eqb_eq in Hc as ->. now exists "".
  - intros Ha. destruct (IH Ha) as [a' ->]. now exists (String c a').
Qed.

(** [os.path.basename] undoes [os.path.join] on a file name without
    separators. *)
Lemma basename_join (a b : string) :
  Str.contains "/" b = false ->
  os_path_basename (os_path_join a b) = b.
Proof.
  intros Hb. unfold os_path_join.
  destruct (starts_with_sep b) eqn:Hstart.
  { destruct b as [|c b]; [discriminate|].
    cbn in Hb. apply orb_false_iff in Hb as [Hc _].
    destruct c as [[] [] [] [] [] [] [] []]; discriminate. }
  destruct (String.eqb a "") eqn:Hempty.
  { apply String.eqb_eq in Hempty as ->. now apply basename_plain. }
  cbn [orb]. destruct (ends_with_sep a) eqn:Hend.
  - destruct (ends_with_sep_split a Hend) as [a' ->].
    rewrite append_assoc. now apply basename_after_sep.
  - now apply basename_after_sep.
Qed.


(** ** Instances: rectangles and scanning indexes *)

#[global] Program Instance rect_geometry : Geometry Rect := {|
  geom_type := fun _ => Polygon;
  bounds := RectGeom.bounds;
  area := RectGeom.area;
  within := RectGeom.within;
  intersects := RectGeom.intersects;
  touches := RectGeom.touches
|}.
Next Obligation.
  intros a b Ht. unfold RectGeom.touches in Ht.
  now apply andb_true_iff in Ht as [Hi _].
Qed.
Next Obligation.
  intros a b Ht. unfold RectGeom.touches in Ht. unfold RectGeom.within.
  apply andb_true_iff in Ht as [_ Hint]. apply negb_true_iff in Hint.
  rewrite Hint. apply andb_false_r.
Qed.

Section ScanFacts.
Context {G : Type} `{Geometry G}.
Implicit Types (F : list (Feature G)) (B : G).

Lemma elem_of_scan_query F B i :
  i ∈ scan_query F B
  <-> exists f, F !! i = Some f
                /\ bbox_intersects (bounds (geometry f)) (bounds B) = true.
Proof.
  unfold scan_query. rewrite list_elem_of_In, filter_In, <- list_elem_of_In, elem_of_seq.
  split.
  - intros [_ Hhit]. destruct (F !! i) as [f|]; [eauto|discriminate].
  - intros (f & Hf & Hhit). rewrite Hf. split; [|exact Hhit].
    apply lookup_lt_Some in Hf. lia.
Qed.

Lemma scan_query_NoDup F B : NoDup (scan_query F B).
Proof.
  unfold scan_query. generalize (seq 0 (length F)), (NoDup_seq 0 (length F)).
  intros l Hl. induction Hl as [|i l Hi Hl IH]; cbn; [constructor|].
  destruct (match F !! i with Some _ => _ | None => _ end); [|exact IH].
  constructor; [|exact IH].
  rewrite list_elem_of_In, filter_In, <- list_elem_of_In. tauto.
Qed.

Lemma scan_query_ascending F B : StronglySorted lt (scan_query F B).
Proof.
  unfold scan_query. generalize 0. generalize (length F) as n.
  induction n as [|n IH]; intros k; cbn; [constructor|].
  destruct (match F !! k with Some _ => _ | None => _ end); [|apply IH].
  constructor; [apply IH|].
  apply Forall_forall. intros j Hj.
  apply list_elem_of_In, filter_In in Hj as [Hj _].
  apply list_elem_of_In, elem_of_seq in Hj. lia.
Qed.

(** The index that scans the rows in order. *)
Definition scan_index : SpatialIndex G.
Proof.
  refine {| sindex_query := scan_query |}.
  - intros F B i. apply elem_of_scan_query.
  - intros F B i f Hf Hhit. apply elem_of_scan_query. eauto.
  - apply scan_query_NoDup.
Defined.

(** The index that reports the same positions from the last to the
    first. *)
Definition reverse_scan_index : SpatialIndex G.
Proof.
  refine {| sindex_query := reverse_scan_query |}.
  - intros F B i Hi. apply elem_of_scan_query.
    unfold reverse_scan_query in Hi. now rewrite elem_of_reverse in Hi.
  - intros F B i f Hf Hhit. unfold reverse_scan_query.
    rewrite elem_of_reverse. apply elem_of_scan_query. eauto.
  - intros F B. unfold reverse_scan_query.
    rewrite reverse_Permutation. apply scan_query_NoDup.
Defined.

End ScanFacts.

(** ** The packed tree is a spatial index *)


Lemma Node_forall_ind (P : Node -> Prop) :
  (forall box item, P (Leaf box item)) ->
  (forall box children, Forall P children -> P (Branch box children)) ->
  forall node, P node.
Proof.
  intros Hleaf Hbranch. fix IH 1. intros [box item|box children].
  - apply Hleaf.
  - apply Hbranch. induction children as [|c cs IHcs]; constructor.
    + apply IH.
    + exact IHcs.
Qed.

(** *** Boxes *)

Lemma box_in_refl a : box_in a a.
Proof. intros q Hq. exact Hq. Qed.

Lemma box_in_trans a b c : box_in a b -> box_in b c -> box_in a c.
Proof. intros Hab Hbc q Hq. auto. Qed.

Lemma expand_l a b : box_in a (expandToInclude a b).
Proof.
  intros [q|]; destruct a as [a|], b as [b|]; cbn; try discriminate; auto.
  rewrite !andb_true_iff, !Z.leb_le. lia.
Qed.

Lemma expand_r a b : box_in b (expandToInclude a b).
Proof.
  intros [q|]; destruct a as [a|], b as [b|]; cbn; try discriminate; auto.
  rewrite !andb_true_iff, !Z.leb_le. lia.
Qed.

Lemma foldl_expand_acc acc cs :
  box_in acc (foldl (fun bnds child => expandToInclude bnds (getBounds child)) acc cs).
Proof.
  revert acc. induction cs as [|c cs IH]; intros acc; cbn.
  - apply box_in_refl.
  - eapply box_in_trans; [apply expand_l|apply IH].
Qed.

Lemma foldl_expand_elem acc cs c :
  c ∈ cs ->
  box_in (getBounds c)
         (foldl (fun bnds child => expandToInclude bnds (getBounds child)) acc cs).
Proof.
  revert acc. induction cs as [|c' cs IH]; intros acc Hc.
  - now apply elem_of_nil in Hc.
  - apply elem_of_cons in Hc as [->|Hc]; cbn.
    + eapply box_in_trans; [apply expand_r|apply foldl_expand_acc].
    + now apply IH.
Qed.

Lemma boundsFromChildren_elem cs c :
  c ∈ cs -> box_in (getBounds c) (boundsFromChildren cs).
Proof.
  destruct cs as [|c0 cs]; intros Hc.
  - now apply elem_of_nil in Hc.
  - apply elem_of_cons in Hc as [->|Hc]; cbn.
    + apply foldl_expand_acc.
    + now apply foldl_expand_elem.
Qed.

(** *** The traversal *)

Lemma flat_map_filter_snd {A} (f : A -> list (BBox * nat)) q (l : list A) :
  (List.filter (hits q) (flat_map f l)).*2
  = flat_map (fun a => (List.filter (hits q) (f a)).*2) l.
Proof.
  induction l as [|a l IH]; [reflexivity|].
  cbn. rewrite List.filter_app, fmap_app. now rewrite IH.
Qed.

Lemma flat_map_ext_Forall {A B} (f g : A -> list B) l :
  Forall (fun a => f a = g a) l -> flat_map f l = flat_map g l.
Proof. induction 1 as [|a l Ha _ IH]; cbn; congruence. Qed.

Lemma filter_none {A} (p : A -> bool) (l : list A) :
  Forall (fun a => p a = false) l -> List.filter p l = [].
Proof. induction 1 as [|a l Ha _ IH]; cbn; [reflexivity|now rewrite Ha]. Qed.

Lemma built_visit node :
  built node ->
  forall q,
    visit q node = (List.filter (hits q) (leaves_of node)).*2
    /\ (forall leaf, leaf ∈ leaves_of node -> hits q leaf = true ->
        bbox_intersects (getBounds node) q = true).
Proof.
  induction node as [box item|box children IH] using Node_forall_ind;
    intros Hbuilt q.
  - unfold visit, hits. cbn [getBounds leaves_of List.filter fst query_node].
    split.
    + now destruct (bbox_intersects (Some box) q).
    + intros leaf Hleaf. apply list_elem_of_singleton in Hleaf as ->. auto.
  - inversion Hbuilt as [|cs Hcs Heq]; subst.
    assert (Hup : forall leaf, leaf ∈ leaves_of (parent children) ->
                   hits q leaf = true ->
                   bbox_intersects (boundsFromChildren children) q = true).
    { intros leaf Hleaf Hhit. cbn in Hleaf.
      apply list_elem_of_In, in_flat_map in Hleaf as (c & Hc & Hleaf).
      apply list_elem_of_In in Hc, Hleaf.
      apply (boundsFromChildren_elem children c Hc).
      rewrite Forall_forall in IH, Hcs.
      destruct (IH c Hc (Hcs c Hc) q) as [_ Hc_up]. eauto. }
    split; [|exact Hup].
    unfold visit. cbn [getBounds parent leaves_of query_node].
    destruct (bbox_intersects (boundsFromChildren children) q) eqn:Hroot.
    + rewrite flat_map_filter_snd. apply flat_map_ext_Forall.
      rewrite Forall_forall in IH, Hcs. apply Forall_forall. intros c Hc.
      destruct (IH c Hc (Hcs c Hc) q) as [Hvisit _]. exact Hvisit.
    + rewrite (filter_none (hits q) (flat_map leaves_of children)); [reflexivity|].
      apply Forall_forall. intros leaf Hleaf.
      destruct (hits q leaf) eqn:Hhit; [|reflexivity].
      specialize (Hup leaf Hleaf Hhit). congruence.
Qed.

(** *** Packing *)

Lemma flat_map_Permutation {A B} (f : A -> list B) l1 l2 :
  l1 ≡ₚ l2 -> flat_map f l1 ≡ₚ flat_map f l2.
Proof.
  induction 1 as [|a l1 l2 _ IH|a b l|l1 l2 l3 _ IH1 _ IH2]; cbn.
  - reflexivity.
  - now rewrite IH.
  - rewrite !app_assoc. f_equiv. apply Permutation_app_comm.
  - now rewrite IH1.
Qed.

Lemma flat_map_concat {A B} (f : A -> list B) (ls : list (list A)) :
  flat_map f (concat ls) = flat_map (flat_map f) ls.
Proof.
  induction ls as [|l ls IH]; [reflexivity|].
  cbn. now rewrite flat_map_app, IH.
Qed.

Lemma length_sortNodesX nodes : length (sortNodesX nodes) = length nodes.
Proof. apply Permutation_length, merge_sort_Permutation. Qed.

Lemma length_sortNodesY nodes : length (sortNodesY nodes) = length nodes.
Proof. apply Permutation_length, merge_sort_Permutation. Qed.

Lemma child_runs_concat fuel slice :
  length slice <= fuel -> concat (child_runs fuel slice) = slice.
Proof.
  revert slice. induction fuel as [|fuel IH]; intros slice Hlen.
  - destruct slice; [reflexivity|cbn in Hlen; lia].
  - destruct slice as [|c slice]; [reflexivity|].
    cbn [child_runs concat]. rewrite IH.
    + apply take_drop.
    + rewrite length_drop. cbn in *. unfold nodeCapacity. lia.
Qed.

Lemma child_runs_nonempty fuel slice :
  Forall (fun run => run <> []) (child_runs fuel slice).
Proof.
  revert slice. induction fuel as [|fuel IH]; intros slice; [constructor|].
  destruct slice as [|c slice]; [constructor|].
  cbn [child_runs]. constructor; [discriminate|apply IH].
Qed.

Lemma child_runs_length fuel slice :
  length (child_runs fuel slice) <= length slice.
Proof.
  revert slice. induction fuel as [|fuel IH]; intros slice; [cbn; lia|].
  destruct slice as [|c slice]; [cbn; lia|].
  cbn [child_runs length]. specialize (IH (drop nodeCapacity (c :: slice))).
  rewrite length_drop in IH. cbn in *. unfold nodeCapacity in *. lia.
Qed.

Lemma child_runs_shorter fuel slice :
  2 <= length slice -> length (child_runs fuel slice) < length slice.
Proof.
  intros Hlen. destruct fuel as [|fuel]; [cbn; lia|].
  destruct slice as [|c slice]; [cbn in Hlen; lia|].
  cbn [child_runs length].
  pose proof (child_runs_length fuel (drop nodeCapacity (c :: slice))) as Hrest.
  rewrite length_drop in Hrest. cbn in *. unfold nodeCapacity in *. lia.
Qed.

Lemma vertical_slices_concat numSlices nodesPerSlice nodes :
  concat (vertical_slices numSlices nodesPerSlice nodes)
  = take (numSlices * nodesPerSlice) nodes.
Proof.
  revert nodes. induction numSlices as [|j IH]; intros nodes; [reflexivity|].
  cbn [vertical_slices concat]. rewrite IH.
  apply take_take_drop.
Qed.

(** The arithmetic of the slices: for at least two nodes there is at
    least one slice, a slice holds at least two nodes, and the slices
    hold all nodes. *)
Lemma slices_cover number :
  2 <= number ->
  1 <= sliceCount number
  /\ 2 <= sliceCapacity number (sliceCount number)
  /\ number <= sliceCount number * sliceCapacity number (sliceCount number).
Proof.
  intros Hn. unfold sliceCapacity, sliceCount, ceil_div, nodeCapacity.
  set (m := (number + 10 - 1) / 10).
  assert (Hm1 : 1 <= m).
  { unfold m. apply (Nat.div_le_lower_bound _ 10 1); lia. }
  assert (Hmn : m < number).
  { unfold m. apply Nat.Div0.div_lt_upper_bound; lia. }
  set (s := Nat.sqrt_up m).
  assert (Hs1 : 1 <= s) by (apply Nat.sqrt_up_pos; lia).
  assert (Hsm : s <= m) by (apply Nat.sqrt_up_le_lin; lia).
  split; [exact Hs1|]. split.
  - apply (Nat.div_le_lower_bound _ s 2); lia.
  - pose proof (Nat.div_mod_eq (number + s - 1) s) as Hdm.
    pose proof (Nat.mod_upper_bound (number + s - 1) s) as Hmod.
    nia.
Qed.

Lemma createParentNodes_groups nodes :
  createParentNodes nodes = parent <$> child_groups nodes.
Proof.
  unfold createParentNodes, child_groups, addParentNodesFromVerticalSlice.
  cbv zeta.
  induction (vertical_slices _ _ _) as [|slice slices IH]; [reflexivity|].
  cbn. rewrite fmap_app. now rewrite <- IH.
Qed.

Lemma slice_runs_concat slices :
  concat (slices ≫= (fun slice => child_runs (length slice) (sortNodesY slice)))
  ≡ₚ concat slices.
Proof.
  induction slices as [|slice slices IH]; [reflexivity|].
  cbn. rewrite concat_app, IH. f_equiv.
  rewrite child_runs_concat.
  - apply merge_sort_Permutation.
  - now rewrite length_sortNodesY.
Qed.

Lemma child_groups_concat nodes :
  2 <= length nodes -> concat (child_groups nodes) ≡ₚ nodes.
Proof.
  intros Hn. unfold child_groups. cbv zeta.
  rewrite slice_runs_concat, vertical_slices_concat.
  destruct (slices_cover (length nodes) Hn) as (_ & _ & Hcover).
  rewrite take_ge.
  - apply merge_sort_Permutation.
  - now rewrite length_sortNodesX.
Qed.

Lemma child_groups_nonempty nodes :
  Forall (fun run => run <> []) (child_groups nodes).
Proof.
  unfold child_groups. cbv zeta.
  induction (vertical_slices _ _ _) as [|slice slices IH]; [constructor|].
  cbn. apply Forall_app. split; [apply child_runs_nonempty|exact IH].
Qed.

Lemma slice_runs_length slices :
  length (slices ≫= (fun slice => child_runs (length slice) (sortNodesY slice)))
  <= length (concat slices).
Proof.
  induction slices as [|slice slices IH]; [reflexivity|].
  cbn. rewrite !length_app.
  pose proof (child_runs_length (length slice) (sortNodesY slice)) as Hrun.
  rewrite length_sortNodesY in Hrun. lia.
Qed.

Lemma child_groups_shorter nodes :
  2 <= length nodes -> length (child_groups nodes) < length nodes.
Proof.
  intros Hn. unfold child_groups. cbv zeta.
  destruct (slices_cover (length nodes) Hn) as (Hcount & Hcap & Hcover).
  pose proof (length_sortNodesX nodes) as Hsorted.
  pose proof (vertical_slices_concat (sliceCount (length nodes))
                (sliceCapacity (length nodes) (sliceCount (length nodes)))
                (sortNodesX nodes)) as Hconcat.
  destruct (sliceCount (length nodes)) as [|j]; [lia|].
  cbn [vertical_slices] in *.
  set (first := take _ (sortNodesX nodes)) in *.
  set (others := vertical_slices _ _ _) in *.
  assert (Hfirst : 2 <= length first).
  { unfold first. rewrite length_take. lia. }
  change (length (child_runs (length first) (sortNodesY first)
                  ++ (others ≫= (fun slice => child_runs (length slice) (sortNodesY slice))))
          < length nodes).
  rewrite length_app.
  pose proof (slice_runs_length others) as Hothers.
  pose proof (child_runs_shorter (length first) (sortNodesY first)) as Hrun.
  rewrite length_sortNodesY in Hrun. specialize (Hrun Hfirst).
  assert (Htotal : length first + length (concat others) <= length nodes).
  { rewrite <- length_app. change (first ++ concat others) with (concat (first :: others)).
    rewrite Hconcat, length_take. lia. }
  lia.
Qed.

Lemma level_leaves_parents groups :
  level_leaves (parent <$> groups) = level_leaves (concat groups).
Proof.
  unfold level_leaves. rewrite flat_map_concat.
  induction groups as [|g groups IH]; [reflexivity|].
  cbn. now rewrite IH.
Qed.

(** Building returns a root; the root holds the leaves of the first
    level, each once, and every parent spans its children. *)
Lemma build_levels_root fuel level :
  level <> [] -> length level <= S fuel -> Forall built level ->
  exists root,
    build_levels fuel level = Some root
    /\ built root
    /\ leaves_of root ≡ₚ level_leaves level.
Proof.
  revert level. induction fuel as [|fuel IH]; intros level Hne Hlen Hbuilt.
  - destruct level as [|root [|c level]]; [congruence| |cbn in Hlen; lia].
    exists root. split; [reflexivity|]. split; [now inversion Hbuilt|].
    unfold level_leaves. cbn. now rewrite app_nil_r.
  - destruct level as [|root [|c level]]; [congruence| |].
    + exists root. split; [reflexivity|]. split; [now inversion Hbuilt|].
      unfold level_leaves. cbn. now rewrite app_nil_r.
    + set (nodes := root :: c :: level) in *.
      assert (Hn : 2 <= length nodes) by (cbn; lia).
      change (build_levels (S fuel) nodes)
        with (build_levels fuel (createParentNodes nodes)).
      rewrite createParentNodes_groups.
      pose proof (child_groups_concat nodes Hn) as Hperm.
      pose proof (child_groups_shorter nodes Hn) as Hshort.
      destruct (IH (parent <$> child_groups nodes)) as (r & Hr & Hrb & Hrl).
      * intros Hnil. apply fmap_nil_inv in Hnil. rewrite Hnil in Hperm.
        cbn in Hperm. apply Permutation_nil_l in Hperm. subst nodes. congruence.
      * rewrite length_fmap. lia.
      * apply Forall_forall. intros g Hg.
        apply list_elem_of_fmap in Hg as (run & -> & Hrun).
        constructor. apply Forall_forall. intros n Hin.
        rewrite Forall_forall in Hbuilt. apply Hbuilt.
        rewrite <- Hperm. apply list_elem_of_In, in_concat.
        exists run. split; now apply list_elem_of_In.
      * exists r. split; [exact Hr|]. split; [exact Hrb|].
        rewrite Hrl, level_leaves_parents. unfold level_leaves.
        now apply flat_map_Permutation.
Qed.

Lemma NoDup_fmap_filter {A B} (f : A -> B) (p : A -> bool) (l : list A) :
  NoDup (f <$> l) -> NoDup (f <$> List.filter p l).
Proof.
  induction l as [|a l IH]; cbn; [constructor|].
  intros Hnd. apply NoDup_cons in Hnd as [Ha Hl].
  destruct (p a); [|auto]. cbn. apply NoDup_cons. split; [|auto].
  intros Hin. apply Ha.
  apply list_elem_of_fmap in Hin as (a' & -> & Hin).
  apply list_elem_of_fmap. exists a'. split; [reflexivity|].
  now apply list_elem_of_In, filter_In in Hin as [Hin%list_elem_of_In _].
Qed.

Section STRtreeFacts.
Context {G : Type} `{Geometry G}.
Implicit Types (F : list (Feature G)) (B : G).

Lemma insert_all_built i F : Forall built (insert_all i F).
Proof.
  revert i. induction F as [|f F IH]; intros i; cbn; [constructor|].
  destruct (bounds (geometry f)); [constructor; [constructor|]|]; apply IH.
Qed.

Lemma elem_of_insert_all k F box i :
  (box, i) ∈ level_leaves (insert_all k F)
  <-> exists f, k <= i /\ F !! (i - k) = Some f
                /\ bounds (geometry f) = Some box.
Proof.
  revert k. induction F as [|f F IH]; intros k.
  - cbn. rewrite elem_of_nil. split; [tauto|].
    intros (f & _ & Hf & _). discriminate.
  - assert (Htail : (box, i) ∈ level_leaves (insert_all (S k) F)
                    <-> exists f', S k <= i /\ (f :: F) !! (i - k) = Some f'
                                   /\ bounds (geometry f') = Some box).
    { rewrite IH. split; intros (f' & Hk & Hf' & Hb); exists f'.
      - split; [lia|]. split; [|exact Hb].
        replace (i - k) with (S (i - S k)) by lia. exact Hf'.
      - split; [lia|]. split; [|exact Hb].
        replace (i - k) with (S (i - S k)) in Hf' by lia. exact Hf'. }
    cbn [insert_all]. destruct (bounds (geometry f)) as [b|] eqn:Hb.
    + unfold level_leaves in *. cbn [flat_map leaves_of app].
      rewrite elem_of_cons, Htail. split.
      * intros [Heq|(f' & Hk & Hf' & Hb')].
        -- injection Heq as -> ->. exists f. rewrite Nat.sub_diag. auto.
        -- exists f'. split; [lia|]. auto.
      * intros (f' & Hk & Hf' & Hb').
        destruct (decide (i = k)) as [->|Hik].
        -- rewrite Nat.sub_diag in Hf'. cbn in Hf'. left. congruence.
        -- right. exists f'. split; [lia|]. auto.
    + rewrite Htail. split.
      * intros (f' & Hk & Hf' & Hb'). exists f'. split; [lia|]. auto.
      * intros (f' & Hk & Hf' & Hb').
        destruct (decide (i = k)) as [->|Hik].
        -- rewrite Nat.sub_diag in Hf'. cbn in Hf'. congruence.
        -- exists f'. split; [lia|]. auto.
Qed.

Lemma insert_all_items_from k F :
  Forall (le k) (level_leaves (insert_all k F)).*2.
Proof.
  apply Forall_forall. intros i Hi.
  apply list_elem_of_fmap in Hi as ([box j] & -> & Hin).
  apply elem_of_insert_all in Hin as (f & Hk & _). exact Hk.
Qed.

Lemma insert_all_NoDup k F : NoDup (level_leaves (insert_all k F)).*2.
Proof.
  revert k. induction F as [|f F IH]; intros k; cbn; [constructor|].
  destruct (bounds (geometry f)) as [b|]; [|apply IH].
  unfold level_leaves. cbn [flat_map leaves_of app fmap list_fmap].
  constructor; [|apply IH].
  intros Hin. pose proof (insert_all_items_from (S k) F) as Hfrom.
  rewrite Forall_forall in Hfrom. specialize (Hfrom _ Hin). cbn in Hfrom. lia.
Qed.

(** The query reports the positions of the stored leaves whose box
    intersects the box of [B], in the order in which the packed tree
    stores them. *)
Lemma strtree_query_leaves F B :
  exists stored,
    stored ≡ₚ level_leaves (insert_all 0 F)
    /\ strtree_query F B = (List.filter (hits (bounds B)) stored).*2.
Proof.
  unfold strtree_query, build.
  destruct (insert_all 0 F) as [|n nodes] eqn:Hins.
  - exists []. split; reflexivity.
  - destruct (build_levels_root (length (n :: nodes)) (n :: nodes))
      as (root & Hroot & Hbuilt & Hleaves); [discriminate|lia| |].
    { rewrite <- Hins. apply insert_all_built. }
    exists (leaves_of root). split; [exact Hleaves|].
    rewrite Hroot. cbn [query].
    exact (proj1 (built_visit root Hbuilt (bounds B))).
Qed.

Lemma elem_of_strtree_query F B i :
  i ∈ strtree_query F B
  <-> exists f, F !! i = Some f
                /\ bbox_intersects (bounds (geometry f)) (bounds B) = true.
Proof.
  destruct (strtree_query_leaves F B) as (stored & Hperm & ->).
  rewrite list_elem_of_fmap. split.
  - intros ([box j] & -> & Hin).
    apply list_elem_of_In, filter_In in Hin as [Hin Hhit].
    apply list_elem_of_In in Hin. rewrite Hperm in Hin.
    apply elem_of_insert_all in Hin as (f & _ & Hf & Hb).
    rewrite Nat.sub_0_r in Hf. exists f. split; [exact Hf|].
    rewrite Hb. exact Hhit.
  - intros (f & Hf & Hhit).
    destruct (bounds (geometry f)) as [box|] eqn:Hb; [|discriminate].
    exists (box, i). split; [reflexivity|].
    apply list_elem_of_In, filter_In. split; [|exact Hhit].
    apply list_elem_of_In. rewrite Hperm. apply elem_of_insert_all.
    exists f. rewrite Nat.sub_0_r. split; [lia|]. auto.
Qed.

Lemma strtree_query_NoDup F B : NoDup (strtree_query F B).
Proof.
  destruct (strtree_query_leaves F B) as (stored & Hperm & ->).
  apply NoDup_fmap_filter. rewrite Hperm. apply insert_all_NoDup.
Qed.

(** The packed tree honours the contract of a spatial index. *)
Definition strtree_index : SpatialIndex G :=
  {| sindex_query := strtree_query;
     sindex_sound := fun F B i Hi => proj1 (elem_of_strtree_query F B i) Hi;
     sindex_complete := fun F B i f Hf Hhit =>
       proj2 (elem_of_strtree_query F B i) (ex_intro _ f (conj Hf Hhit));
     sindex_NoDup := strtree_query_NoDup |}.

End STRtreeFacts.

(** ** The clip: claims C2, C3, C4 and C5 *)

Section ClipClaims.
Context {G : Type} `{Geometry G}.
Variable sindex : SpatialIndex G.
Implicit Types (F cand R : list (Feature G)) (b f : Feature G).

(** With a boundary row present the clip returns: the first pass takes
    the rows at the positions the index reports, the second keeps those
    within the boundary geometry. *)
Lemma clip_run F b rest :
  exists cand,
    clip_possible_gdf sindex F (geometry b) = Ok cand
    /\ Forall2 (fun i f => F !! i = Some f)
               (sindex_query sindex F (geometry b)) cand
    /\ clip sindex F (b :: rest)
       = Ok (List.filter (fun f => within (geometry f) (geometry b)) cand).
Proof.
  destruct (iloc_in_range F (sindex_query sindex F (geometry b)))
    as (cand & Hiloc & Hrows).
  { apply Forall_forall. intros i Hi.
    destruct (sindex_sound sindex F (geometry b) i Hi) as (f & Hf & _).
    now apply lookup_lt_Some in Hf. }
  exists cand. split; [exact Hiloc|]. split; [exact Hrows|].
  unfold clip, boundary_geom, iloc_row, clip_exact_gdf. cbn [lookup list_lookup and_then].
  unfold clip_possible_gdf in Hiloc. unfold clip_possible_gdf.
  rewrite Hiloc. cbn [and_then]. now rewrite mask_select_filter.
Qed.

(** A first-pass candidate is a row of the frame whose box intersects
    the box of the boundary. *)
Lemma candidate_row F (B : G) cand f :
  Forall2 (fun i f => F !! i = Some f) (sindex_query sindex F B) cand ->
  f ∈ cand ->
  f ∈ F /\ bbox_intersects (bounds (geometry f)) (bounds B) = true.
Proof.
  intros Hrows Hf. apply list_elem_of_lookup in Hf as [j Hj].
  destruct (Forall2_lookup_r _ _ _ _ _ Hrows Hj) as (i & Hi & Hrow).
  split; [apply list_elem_of_lookup; eauto|].
  destruct (sindex_sound sindex F B i) as (f' & Hf' & Hhit).
  { apply list_elem_of_lookup. eauto. }
  congruence.
Qed.

(** C2.  For every frame and every boundary frame with a first row, the
    clip returns a result; every feature of the result is a feature of
    the input frame, has a bounding box that intersects the bounding box
    of the boundary geometry, and lies within the boundary geometry.  The
    result consists exactly of the first-pass candidates that pass the
    second pass. *)
Theorem clip_subset_within F b rest :
  exists cand R,
    clip_possible_gdf sindex F (geometry b) = Ok cand
    /\ clip sindex F (b :: rest) = Ok R
    /\ R ⊆ F
    /\ (forall f, f ∈ R ->
         f ∈ F
         /\ bbox_intersects (bounds (geometry f)) (bounds (geometry b)) = true
         /\ within (geometry f) (geometry b) = true)
    /\ (forall f, f ∈ R <-> f ∈ cand /\ within (geometry f) (geometry b) = true).
Proof.
  destruct (clip_run F b rest) as (cand & Hcand & Hrows & Hclip).
  exists cand, (List.filter (fun f => within (geometry f) (geometry b)) cand).
  assert (Hmem : forall f,
             f ∈ List.filter (fun f => within (geometry f) (geometry b)) cand
             <-> f ∈ cand /\ within (geometry f) (geometry b) = true).
  { intros f. now rewrite !list_elem_of_In, filter_In. }
  assert (Hall : forall f,
             f ∈ List.filter (fun f => within (geometry f) (geometry b)) cand ->
             f ∈ F
             /\ bbox_intersects (bounds (geometry f)) (bounds (geometry b)) = true
             /\ within (geometry f) (geometry b) = true).
  { intros f Hf. apply Hmem in Hf as [Hf Hw].
    destruct (candidate_row F (geometry b) cand f Hrows Hf). auto. }
  repeat split; try assumption.
  - intros f Hf. now apply Hall.
  - now apply Hall.
  - now apply Hall.
  - now apply Hall.
  - now apply Hmem.
  - now apply Hmem.
  - intros [Hf Hw]. apply Hmem. auto.
Qed.

(** C3, as the notebook behaves.  A feature whose geometry touches the
    boundary geometry, so that the two share a point while their interiors
    do not, is not in the result of the clip: the second pass tests
    [within], which fails for it, although an intersection test would
    hold.  A first-pass candidate that lies within the boundary geometry
    is in the result, whether or not it reaches the edge of the boundary:
    [within] asks for no distance from the edge. *)
Theorem touching_feature_excluded F b rest :
  exists cand R,
    clip_possible_gdf sindex F (geometry b) = Ok cand
    /\ clip sindex F (b :: rest) = Ok R
    /\ (forall f,
          touches (geometry f) (geometry b) = true ->
          (f ∉ R)
          /\ intersects (geometry f) (geometry b) = true
          /\ within (geometry f) (geometry b) = false)
    /\ (forall f,
          f ∈ cand -> within (geometry f) (geometry b) = true -> f ∈ R).
Proof.
  destruct (clip_run F b rest) as (cand & Hcand & _ & Hclip).
  exists cand. eexists. split; [exact Hcand|]. split; [exact Hclip|]. split.
  - intros f Htouch.
    pose proof (touches_not_within _ _ Htouch) as Hout.
    split; [|split; [now apply touches_intersects|exact Hout]].
    rewrite list_elem_of_In, filter_In. intros [_ Hin]. congruence.
  - intros f Hf Hw. apply list_elem_of_In, filter_In.
    split; [now apply list_elem_of_In|exact Hw].
Qed.

(** C4, as the notebook behaves.  The candidates of the first pass are
    the rows at the positions the spatial index reports, in the order in
    which it reports them, and the result is the stable filter of the
    candidates by [within]: nothing is sorted again.  When the index
    reports the positions in ascending order, the result keeps the
    relative order of the input frame. *)
Theorem clip_keeps_candidate_order F b rest :
  exists cand R,
    clip_possible_gdf sindex F (geometry b) = Ok cand
    /\ clip sindex F (b :: rest) = Ok R
    /\ Forall2 (fun i f => F !! i = Some f)
               (sindex_query sindex F (geometry b)) cand
    /\ R = List.filter (fun f => within (geometry f) (geometry b)) cand
    /\ R `sublist_of` cand
    /\ (StronglySorted lt (sindex_query sindex F (geometry b)) ->
        R `sublist_of` F).
Proof.
  destruct (clip_run F b rest) as (cand & Hcand & Hrows & Hclip).
  eexists cand, _. split; [exact Hcand|]. split; [exact Hclip|].
  split; [exact Hrows|]. split; [reflexivity|].
  split; [apply filter_sublist|].
  intros Hasc. etransitivity; [apply filter_sublist|].
  exact (ascending_rows_sublist F _ cand Hasc Hrows).
Qed.

(** On a boundary frame in which every row has a geometry, the cells
    run as [clip] describes. *)
Lemma clip_frame_with_geometry F (bs : list (Feature G)) :
  clip_frame sindex F (with_geometry <$> bs) = clip sindex F bs.
Proof. destruct bs as [|b rest]; reflexivity. Qed.

(** C5, as the notebook behaves.  For every boundary geometry, with or
    without area, the clip returns without an error the first-pass
    candidates that lie within it; the result is empty exactly when no
    candidate lies within the boundary geometry, which the area of the
    boundary does not decide.  A boundary frame without rows, as read
    from an empty boundary file, ends the clip at [boundary_gdf.iloc[0]]
    with pandas' [IndexError]; a first boundary row without geometry ends
    it with a [TypeError]. *)
Theorem degenerate_boundary F :
  (forall b rest, exists cand,
      clip_possible_gdf sindex F (geometry b) = Ok cand
      /\ clip sindex F (b :: rest)
         = Ok (List.filter (fun f => within (geometry f) (geometry b)) cand)
      /\ (clip sindex F (b :: rest) = Ok []
          <-> Forall (fun f => within (geometry f) (geometry b) = false) cand))
  /\ clip sindex F [] = Err (IndexError "single positional indexer is out-of-bounds")
  /\ clip_frame sindex F [] = Err (IndexError "single positional indexer is out-of-bounds")
  /\ (forall (row : Feature (option G)) rest,
        geometry row = None ->
        exists msg, clip_frame sindex F (row :: rest) = Err (TypeError msg))
  /\ (forall bs, clip_frame sindex F (with_geometry <$> bs) = clip sindex F bs).
Proof.
  split; [|split; [reflexivity|split; [reflexivity|split]]].
  - intros b rest.
    destruct (clip_run F b rest) as (cand & Hcand & _ & Hclip).
    exists cand. split; [exact Hcand|]. split; [exact Hclip|].
    rewrite Hclip. clear Hcand Hclip. split.
    + intros Hnil. injection Hnil as Hnil.
      induction cand as [|f cand IH]; [constructor|]. cbn in Hnil.
      destruct (within (geometry f) (geometry b)) eqn:Hw; [discriminate|].
      constructor; [exact Hw|exact (IH Hnil)].
    + intros Hout. f_equal.
      induction Hout as [|f cand Hw _ IH]; [reflexivity|].
      cbn. now rewrite Hw.
  - intros row rest Hnone. eexists.
    unfold clip_frame, iloc_row. cbn [lookup list_lookup and_then].
    rewrite Hnone. reflexivity.
  - apply clip_frame_with_geometry.
Qed.

End ClipClaims.

(** ** The statements on the sample data *)

Lemma paged_fetch_all_records_witness :
  0 < 2
  /\ q_count (mkQuery "1 = 1" "*" "json" 2 "OBJECTID ASC") = 2
  /\ exists recs,
       fetch_all (mkQuery "1 = 1" "*" "json" 2 "OBJECTID ASC") sample_coll = Some recs
       /\ length recs = 5
       /\ recs ≡ₚ sample_coll
       /\ OBJECTID <$> recs = [1; 2; 3; 4; 5]%Z.
Proof.
  split; [lia|]. split; [reflexivity|].
  destruct (paged_fetch_all_records (G:=unit) 2
              (mkQuery "1 = 1" "*" "json" 2 "OBJECTID ASC") sample_coll)
    as (recs & Hfetch & Hlen & Hperm & _ & _ & Hrecs & _);
    [lia|reflexivity|].
  exists recs. repeat split; try assumption.
  rewrite Hrecs. vm_compute. reflexivity.
Defined.

(** The sample collection fetched with pages of one, two, five and a
    thousand records: the same five records in the same order. *)
Example page_size_irrelevant :
  fetch_all (mkQuery "1 = 1" "*" "json" 1 "OBJECTID ASC") sample_coll
  = Some [levee 1; levee 2; levee 3; levee 4; levee 5]
  /\ fetch_all (mkQuery "1 = 1" "*" "json" 2 "OBJECTID ASC") sample_coll
     = Some [levee 1; levee 2; levee 3; levee 4; levee 5]
  /\ fetch_all (mkQuery "1 = 1" "*" "json" 5 "OBJECTID ASC") sample_coll
     = Some [levee 1; levee 2; levee 3; levee 4; levee 5]
  /\ fetch_all (mkQuery "1 = 1" "*" "json" 1000 "OBJECTID ASC") sample_coll
     = Some [levee 1; levee 2; levee 3; levee 4; levee 5]
  /\ fetch_all (mkQuery "1 = 1" "*" "json" 2 "OBJECTID ASC") ([] : list (Feature unit))
     = Some [].
Proof. repeat split; vm_compute; reflexivity. Qed.

(** The sample frame clipped against the basin: parcels 1, 3, 4 and 5
    are first-pass candidates, parcels 1 and 4 pass the second pass. *)
Example clip_sample :
  clip_possible_gdf scan_index sample_features (geometry basin)
  = Ok [parcel 1 1 1 3 3; parcel 3 10 2 12 4; parcel 4 5 5 7 7; parcel 5 8 8 12 12]
  /\ clip scan_index sample_features [basin]
     = Ok [parcel 1 1 1 3 3; parcel 4 5 5 7 7].
Proof. split; vm_compute; reflexivity. Qed.

Lemma clip_subset_within_witness :
  exists cand R,
    clip_possible_gdf scan_index sample_features (geometry basin) = Ok cand
    /\ clip scan_index sample_features [basin] = Ok R
    /\ R ⊆ sample_features
    /\ Forall (fun f =>
                 bbox_intersects (bounds (geometry f)) (bounds (geometry basin)) = true
                 /\ within (geometry f) (geometry basin) = true) R.
Proof.
  destruct (clip_subset_within scan_index sample_features basin [])
    as (cand & R & Hcand & Hclip & Hsub & Hall & _).
  exists cand, R. repeat split; try assumption.
  apply Forall_forall. intros f Hf. now destruct (Hall f Hf) as (_ & Hbox & Hw).
Defined.

Lemma touching_feature_excluded_witness :
  touches (geometry (parcel 3 10 2 12 4)) (geometry basin) = true
  /\ parcel 3 10 2 12 4 ∈ sample_features
  /\ exists R,
       clip strtree_index sample_features [basin] = Ok R
       /\ (parcel 3 10 2 12 4 ∉ R)
       /\ intersects (geometry (parcel 3 10 2 12 4)) (geometry basin) = true
       /\ within (geometry (parcel 3 10 2 12 4)) (geometry basin) = false.
Proof.
  split; [reflexivity|].
  split; [unfold sample_features; rewrite !elem_of_cons; auto|].
  destruct (touching_feature_excluded strtree_index sample_features basin [])
    as (cand & R & _ & Hclip & Hout & _).
  exists R. split; [exact Hclip|].
  apply (Hout (parcel 3 10 2 12 4)). reflexivity.
Defined.

(** C3 as the specification words it fails.  Parcel 6 lies inside the
    basin and shares a stretch of its edge: it reaches the edge of the
    basin and is not strictly inside it, and the clip keeps it, since it
    is within the basin.  The same holds for a feature with the geometry
    of the basin itself. *)
Lemma shared_edge_kept :
  RectGeom.reaches_edge (geometry (parcel 6 0 0 3 3)) (geometry basin) = true
  /\ RectGeom.strictly_inside (geometry (parcel 6 0 0 3 3)) (geometry basin)
     = false
  /\ within (geometry (parcel 6 0 0 3 3)) (geometry basin) = true
  /\ touches (geometry (parcel 6 0 0 3 3)) (geometry basin) = false
  /\ clip strtree_index (parcel 6 0 0 3 3 :: sample_features) [basin]
     = Ok [parcel 6 0 0 3 3; parcel 1 1 1 3 3; parcel 4 5 5 7 7]
  /\ RectGeom.reaches_edge (geometry basin) (geometry basin) = true
  /\ RectGeom.strictly_inside (geometry basin) (geometry basin) = false
  /\ clip strtree_index [basin] [basin] = Ok [basin].
Proof. repeat split; vm_compute; reflexivity. Qed.

(** C4 as the specification words it fails.  In the upstream frame the
    packed tree stores parcel 3, the lowest, before parcel 1: the index
    reports position 2 before position 0, and the clip returns parcel 3
    before parcel 1, the reverse of their order in the input frame. *)
Lemma strtree_reorders_clip :
  sindex_query strtree_index upstream_frame (geometry basin) = [2; 0]
  /\ clip strtree_index upstream_frame [basin]
     = Ok [parcel 3 1 1 3 3; parcel 1 5 5 7 7]
  /\ ~ ([parcel 3 1 1 3 3; parcel 1 5 5 7 7] `sublist_of` upstream_frame).
Proof.
  split; [vm_compute; reflexivity|].
  split; [vm_compute; reflexivity|].
  unfold upstream_frame, parcel. intros Hsub.
  repeat match goal with
         | Hs : _ `sublist_of` _ |- _ => inversion Hs; clear Hs; subst
         end.
Qed.

(** The contract of a spatial index fixes the set of positions, not
    their order: an index that reports them from the last to the first
    honours it, and the clip of the sample frame then returns parcel 4
    before parcel 1. *)
Example reverse_index_reverses_clip :
  clip reverse_scan_index sample_features [basin]
  = Ok [parcel 4 5 5 7 7; parcel 1 1 1 3 3]
  /\ ~ ([parcel 4 5 5 7 7; parcel 1 1 1 3 3] `sublist_of` sample_features).
Proof.
  split; [vm_compute; reflexivity|].
  unfold sample_features, parcel. intros Hsub.
  repeat match goal with
         | Hs : _ `sublist_of` _ |- _ => inversion Hs; clear Hs; subst
         end.
Qed.

(** On the sample frame the packed tree reports the positions 0, 2, 3
    and 4 in this order, and the clip keeps the order of the frame. *)
Lemma clip_keeps_candidate_order_witness :
  StronglySorted lt (sindex_query strtree_index sample_features (geometry basin))
  /\ sindex_query strtree_index sample_features (geometry basin) = [0; 2; 3; 4]
  /\ exists R,
       clip strtree_index sample_features [basin] = Ok R
       /\ R = [parcel 1 1 1 3 3; parcel 4 5 5 7 7]
       /\ R `sublist_of` sample_features.
Proof.
  assert (Hq : sindex_query strtree_index sample_features (geometry basin)
               = [0; 2; 3; 4]) by (vm_compute; reflexivity).
  assert (Hasc : StronglySorted lt
                   (sindex_query strtree_index sample_features (geometry basin))).
  { rewrite Hq. repeat (constructor; [|repeat (constructor; [lia|]); constructor]).
    constructor. }
  split; [exact Hasc|]. split; [exact Hq|].
  destruct (clip_keeps_candidate_order strtree_index sample_features basin [])
    as (cand & R & _ & Hclip & _ & _ & _ & Hsub).
  exists R. split; [exact Hclip|]. split; [|exact (Hsub Hasc)].
  assert (Hrun : clip strtree_index sample_features [basin]
                 = Ok [parcel 1 1 1 3 3; parcel 4 5 5 7 7])
    by (vm_compute; reflexivity).
  congruence.
Defined.

(** C5 as the specification words it fails.  The boundary box from
    (0, 0) to (0, 10) is a polygon without area, and the clip against it
    returns parcel 7, which lies on it: the result is not empty.  A
    boundary frame without rows ends the clip in an [IndexError] and a
    first boundary row without geometry in a [TypeError]; neither is an
    [InvalidBoundaryError]. *)
Lemma zero_area_boundary_keeps_row :
  geom_type (geometry flat_basin) = Polygon
  /\ area (geometry flat_basin) = 0%Z
  /\ bounds (geometry flat_basin) = Some (mkBBox 0 0 0 10)
  /\ within (geometry (parcel 7 0 2 0 5)) (geometry flat_basin) = true
  /\ clip strtree_index (parcel 7 0 2 0 5 :: sample_features) [flat_basin]
     = Ok [parcel 7 0 2 0 5]
  /\ clip strtree_index sample_features []
     = Err (IndexError "single positional indexer is out-of-bounds")
  /\ clip strtree_index sample_features [] <> Err InvalidBoundaryError
  /\ (exists msg,
        clip_frame strtree_index sample_features [unshaped_row]
        = Err (TypeError msg))
  /\ clip_frame strtree_index sample_features [unshaped_row]
     <> Err InvalidBoundaryError.
Proof.
  repeat split; try reflexivity; try discriminate.
  eexists. reflexivity.
Qed.

Lemma degenerate_boundary_witness :
  geometry unshaped_row = None
  /\ (exists msg,
        clip_frame strtree_index sample_features [unshaped_row]
        = Err (TypeError msg))
  /\ clip strtree_index (parcel 7 0 2 0 5 :: sample_features) [flat_basin]
     = Ok [parcel 7 0 2 0 5]
  /\ clip strtree_index sample_features [flat_basin] = Ok []
  /\ clip strtree_index sample_features []
     = Err (IndexError "single positional indexer is out-of-bounds").
Proof.
  destruct (degenerate_boundary strtree_index sample_features)
    as (Hret & Hrows & _ & Hnone & _).
  split; [reflexivity|].
  split; [apply (Hnone unshaped_row []); reflexivity|].
  split; [reflexivity|].
  split; [|exact Hrows].
  destruct (Hret flat_basin []) as (cand & Hcand & _ & Hnil).
  apply Hnil.
  assert (Hc : cand = []) by (vm_compute in Hcand; congruence).
  rewrite Hc. constructor.
Defined.

(** C6 as the specification words it fails.  With the endpoint down the
    run does not end in a [FetchError] with an offset, and with a garbled
    answer it does not end in a [ParseError]; both end in the
    [AttributeError] of a [None] data source.  With an endpoint that
    serves 2500 records and fails the second page request, the run
    returns normally and the shapefile holds 1000 records: the failed
    page is skipped without any error. *)
Lemma fetch_failure_not_fetch_error :
  featurelayer2shapefile_ogr sample_url sample_path down_world
  = Raise (AttributeError "'NoneType' object has no attribute 'GetLayerByIndex'")
          (opened sample_url down_world)
  /\ ~ (exists offset w',
          featurelayer2shapefile_ogr sample_url sample_path down_world
          = Raise (FetchError offset) w')
  /\ featurelayer2shapefile_ogr sample_url sample_path garbled_world
     = Raise (AttributeError "'NoneType' object has no attribute 'GetLayerByIndex'")
             (opened sample_url garbled_world)
  /\ ~ (exists w',
          featurelayer2shapefile_ogr sample_url sample_path garbled_world
          = Raise ParseError w')
  /\ length long_coll = 2500
  /\ exists w' l,
       featurelayer2shapefile_ogr sample_url sample_path cut_world = Return tt w'
       /\ disk w' !! sample_path = Some l
       /\ length l = 1000
       /\ OBJECTID <$> l = Z.of_nat <$> seq 1 1000.
Proof.
  assert (Hdown : open_datasource (remote down_world) (query_url_of sample_url)
                  = None) by (vm_compute; reflexivity).
  assert (Hbad : open_datasource (remote garbled_world) (query_url_of sample_url)
                 = None) by (vm_compute; reflexivity).
  assert (Hcut : open_datasource (remote cut_world) (query_url_of sample_url)
                 = Some [take (1 * 1000) (merge_sort by_id long_coll)]).
  { apply open_interrupted; [reflexivity|lia|].
    unfold cut_world, world_with. cbn [remote]. apply lookup_singleton_eq. }
  rewrite !featurelayer2shapefile_ogr_run, Hdown, Hbad, Hcut.
  split; [reflexivity|].
  split; [intros (offset & w' & Heq); discriminate Heq|].
  split; [reflexivity|].
  split; [intros (w' & Heq); discriminate Heq|].
  split; [vm_compute; reflexivity|].
  eexists _, _. split; [reflexivity|]. cbn [persisted disk].
  split; [apply lookup_insert_eq|].
  split; vm_compute; reflexivity.
Qed.

Lemma page_failure_outcomes_witness :
  Str.contains "?" sample_url = false
  /\ remote down_world !! (sample_url +:+ "/query/") = Some Failing
  /\ featurelayer2shapefile_ogr sample_url sample_path down_world
     = Raise (AttributeError "'NoneType' object has no attribute 'GetLayerByIndex'")
             (opened sample_url down_world)
  /\ 0 < 1
  /\ remote cut_world !! (sample_url +:+ "/query/") = Some (Interrupted long_coll 1)
  /\ exists w' l,
       featurelayer2shapefile_ogr sample_url sample_path cut_world = Return tt w'
       /\ disk w' !! sample_path = Some l
       /\ length l = 1000.
Proof.
  assert (Hurl : Str.contains "?" sample_url = false) by reflexivity.
  assert (Hep : remote down_world !! (sample_url +:+ "/query/") = Some Failing)
    by (vm_compute; reflexivity).
  assert (Hcut : remote cut_world !! (sample_url +:+ "/query/")
                 = Some (Interrupted long_coll 1))
    by (unfold cut_world, world_with; cbn [remote]; apply lookup_singleton_eq).
  split; [exact Hurl|]. split; [exact Hep|].
  split.
  { apply (proj1 (page_failure_outcomes sample_url sample_path down_world Hurl)).
    left. exact Hep. }
  split; [lia|]. split; [exact Hcut|].
  destruct (proj2 (page_failure_outcomes sample_url sample_path cut_world Hurl)
              long_coll 1 ltac:(lia) Hcut)
    as (w' & l & Hrun & Hdisk & _ & Hlen & _).
  exists w', l. split; [exact Hrun|]. split; [exact Hdisk|].
  rewrite Hlen. vm_compute. reflexivity.
Defined.

(** The sample row, downloaded: the file name is the sanitized layer
    name. *)
Example row_func_sample :
  exists w',
    row_func sample_server sample_folder (PyList [4%Z]) Werkzeug.secure_filename
             sample_row table_world
    = Return tt w'
    /\ disk w' !! "/home/user/download/Leveed_Areas.shp"
       = Some [levee 1; levee 2; levee 3; levee 4; levee 5]
    /\ calls w'
       = [COpen "https://nld.example/FeatureServer//4//query/?where=1+%3D+1&outfields=*&f=json&resultRecordCount=1000&orderByFields=OBJECTID+ASC";
          CExists "/home/user/download/Leveed_Areas.shp";
          CCreate "/home/user/download/Leveed_Areas.shp";
          CCopyLayer "/home/user/download/Leveed_Areas.shp" 5].
Proof.
  rewrite row_func_run. change (skipped _ _) with false. cbn iota.
  rewrite featurelayer2shapefile_ogr_run.
  assert (Hopen : open_datasource
                    (remote (announced sample_folder Werkzeug.secure_filename
                                       sample_row table_world))
                    (query_url_of (layer_url_of sample_server sample_row))
                  = Some [[levee 1; levee 2; levee 3; levee 4; levee 5]])
    by (vm_compute; reflexivity).
  rewrite Hopen. eexists. split; [reflexivity|].
  split; vm_compute; reflexivity.
Qed.

Lemma existing_shapefile_replaced_witness :
  open_datasource (remote serving_world) (query_url_of sample_url)
  = Some [[levee 1; levee 2; levee 3; levee 4; levee 5]]
  /\ exists w' new,
       featurelayer2shapefile_ogr sample_url sample_path serving_world = Return tt w'
       /\ disk w' !! sample_path = Some [levee 1; levee 2; levee 3; levee 4; levee 5]
       /\ calls w' = calls serving_world ++ new
       /\ exists pre post, new = pre ++ CDelete sample_path :: CCreate sample_path :: post.
Proof.
  pose (w := serving_world).
  assert (Hopen : open_datasource (remote w) (query_url_of sample_url)
                  = Some [[levee 1; levee 2; levee 3; levee 4; levee 5]])
    by (vm_compute; reflexivity).
  split; [exact Hopen|].
  destruct (existing_shapefile_replaced sample_url sample_path w _ _ Hopen)
    as (w' & new & Hrun & Hdisk & _ & Hcalls & Hdel & _).
  exists w', new. repeat split; try assumption.
  apply Hdel. exists [levee 9]. vm_compute. reflexivity.
Defined.

Lemma allow_list_gates_download_witness :
  row_func sample_server sample_folder (PyList [0; 1]%Z) Werkzeug.secure_filename
           sample_row table_world
  = Return tt table_world
  /\ COpen (query_url_of "https://nld.example/FeatureServer//4/")
     ∈ calls (final (row_func sample_server sample_folder (PyList [4%Z])
                              Werkzeug.secure_filename sample_row table_world)).
Proof.
  split.
  - apply (allow_list_gates_download sample_server sample_folder
             Werkzeug.secure_filename (PyList [0; 1]%Z) sample_row table_world)
      with (items := [0; 1]%Z); [reflexivity|].
    cbn. rewrite !elem_of_cons, elem_of_nil. lia.
  - apply (allow_list_gates_download sample_server sample_folder
             Werkzeug.secure_filename (PyList [4%Z]) sample_row table_world).
    left. exists [4%Z]. split; [reflexivity|]. apply list_elem_of_here.
Defined.

(** * Further properties of the notebooks *)

(** ** Downloading twice, and the loop over the layer table *)

Section LoopFacts.
Context {G : Type}.
Variable url_feature_server download_folder : string.
Variable secure_filename : string -> string.
Implicit Types (id_list : PyObj) (row : LayerRow) (rows : list LayerRow)
  (w : World G).

Abbreviation shp row := (shp_path_of download_folder secure_filename row).
Abbreviation lurl row := (layer_url_of url_feature_server row).
Abbreviation loop id_list rows :=
  (df_apply url_feature_server download_folder id_list secure_filename rows).

(** X1.  When a download of a layer returns and a second download of
    the same layer to the same path returns as well, the second run
    removed the shapefile the first one wrote and wrote the same features
    again: the disk after two runs is the disk after one. *)
Theorem download_twice_same_disk url path w w1 w2 :
  featurelayer2shapefile_ogr url path w = Return tt w1 ->
  featurelayer2shapefile_ogr url path w1 = Return tt w2 ->
  exists new,
    disk w2 = disk w1
    /\ is_Some (disk w2 !! path)
    /\ calls w2 = calls w1 ++ new
    /\ CDelete path ∈ new.
Proof.
  rewrite !featurelayer2shapefile_ogr_run.
  destruct (open_datasource (remote w) (query_url_of url)) as [[|l ds]|] eqn:Hopen;
    try discriminate.
  intros [= <-]. cbn [persisted remote]. rewrite Hopen. intros [= <-].
  eexists. cbn [persisted disk calls].
  split; [apply insert_insert_eq|].
  split; [rewrite lookup_insert_eq; eauto|].
  split; [reflexivity|].
  rewrite bool_decide_eq_true_2 by (rewrite lookup_insert_eq; eauto).
  unfold persist_calls. cbn [app]. rewrite !elem_of_cons. auto.
Qed.

(** A row that is not skipped and whose layer opens is announced and
    written to its path. *)
Lemma row_func_downloads id_list row w l :
  skipped id_list row = false ->
  row_layer url_feature_server (remote w) row = Some l ->
  row_func url_feature_server download_folder id_list secure_filename row w
  = Return tt (persisted (lurl row) (shp row) l
                         (announced download_folder secure_filename row w)).
Proof.
  intros Hgo Hlayer. rewrite row_func_run, Hgo, featurelayer2shapefile_ogr_run.
  unfold row_layer in Hlayer. cbn [announced remote].
  destruct (open_datasource (remote w) (query_url_of (lurl row))) as [[|l' ds]|];
    try discriminate Hlayer.
  now injection Hlayer as ->.
Qed.

(** A row that is not skipped and whose layer does not open ends in an
    [AttributeError], after the announcement and the one call to
    [ogr.Open]. *)
Lemma row_func_fails id_list row w :
  skipped id_list row = false ->
  row_layer url_feature_server (remote w) row = None ->
  exists msg,
    row_func url_feature_server download_folder id_list secure_filename row w
    = Raise (AttributeError msg)
            (opened (lurl row) (announced download_folder secure_filename row w)).
Proof.
  intros Hgo Hlayer. rewrite row_func_run, Hgo, featurelayer2shapefile_ogr_run.
  unfold row_layer in Hlayer. cbn [announced remote].
  destruct (open_datasource (remote w) (query_url_of (lurl row))) as [[|l' ds]|];
    try discriminate Hlayer; eauto.
Qed.

(** The loop over two stretches of the table is the loop over the first
    followed, unless it raised, by the loop over the second. *)
Lemma df_apply_app id_list rows1 rows2 w :
  loop id_list (rows1 ++ rows2) w
  = match loop id_list rows1 w with
    | Return _ w1 => loop id_list rows2 w1
    | Raise e w1 => Raise e w1
    end.
Proof.
  revert w. induction rows1 as [|row rows1 IH]; intros w; [reflexivity|].
  cbn [app df_apply]. unfold bind.
  destruct (row_func _ _ _ _ row w) as [[] w1|e w1]; [apply IH|reflexivity].
Qed.

(** What a run of the loop comes to, by induction over the table. *)
Lemma df_apply_outcome id_list rows w :
  ((exists w', loop id_list rows w = Return tt w')
   <-> Forall (row_passes url_feature_server id_list (remote w)) rows)
  /\ forall w',
       loop id_list rows w = Return tt w' ->
       remote w' = remote w
       /\ disk w'
          = disk_after url_feature_server download_folder id_list secure_filename
                       (remote w) rows (disk w).
Proof.
  revert w. induction rows as [|row rows IH]; intros w.
  { split; [split; [constructor|eauto]|]. now intros w' [= <-]. }
  cbn [df_apply disk_after]. unfold bind.
  destruct (skipped id_list row) eqn:Hskip.
  - rewrite row_func_run, Hskip. destruct (IH w) as [Hiff Hdisk].
    split; [|exact Hdisk].
    rewrite Hiff. split; [intros Hall; constructor; [now left|exact Hall]|].
    intros Hall. now apply Forall_cons in Hall as [_ Hall].
  - destruct (row_layer url_feature_server (remote w) row) as [l|] eqn:Hlayer.
    + rewrite (row_func_downloads id_list row w l Hskip Hlayer).
      destruct (IH (persisted (lurl row) (shp row) l
                              (announced download_folder secure_filename row w)))
        as [Hiff Hdisk].
      cbn [persisted announced remote disk] in Hiff, Hdisk.
      split; [|exact Hdisk].
      rewrite Hiff. split.
      * intros Hall. constructor; [right; rewrite Hlayer; eauto|exact Hall].
      * intros Hall. now apply Forall_cons in Hall as [_ Hall].
    + destruct (row_func_fails id_list row w Hskip Hlayer) as [msg ->].
      split; [|discriminate]. split; [intros [w' Hret]; discriminate Hret|].
      intros Hall. apply Forall_cons in Hall as [[Hs | Hl] _].
      * congruence.
      * rewrite Hlayer in Hl. now destruct Hl.
Qed.

(** X2.  When the loop returns, every row was skipped or had a layer
    that opened; the remote side is as it was, and the disk is as
    [disk_after] computes it: each downloaded row put its layer at its
    path, in table order. *)
Theorem df_apply_returns id_list rows w w' :
  loop id_list rows w = Return tt w' ->
  Forall (row_passes url_feature_server id_list (remote w)) rows
  /\ remote w' = remote w
  /\ disk w'
     = disk_after url_feature_server download_folder id_list secure_filename
                  (remote w) rows (disk w).
Proof.
  intros Hret. destruct (df_apply_outcome id_list rows w) as [Hiff Hdisk].
  split; [apply Hiff; eauto|]. now apply Hdisk.
Qed.

(** X3.  The first row whose layer does not open ends the loop with its
    [AttributeError]: the world left behind is the world of that failed
    row, whatever rows follow it in the table, and the disk holds what the
    rows before it wrote. *)
Theorem df_apply_stops_at_failure id_list pre row post w :
  Forall (row_passes url_feature_server id_list (remote w)) pre ->
  skipped id_list row = false ->
  row_layer url_feature_server (remote w) row = None ->
  exists msg w1,
    loop id_list pre w = Return tt w1
    /\ loop id_list (pre ++ row :: post) w
       = Raise (AttributeError msg)
               (opened (lurl row) (announced download_folder secure_filename row w1))
    /\ disk (final (loop id_list (pre ++ row :: post) w))
       = disk_after url_feature_server download_folder id_list secure_filename
                    (remote w) pre (disk w).
Proof.
  intros Hpre Hgo Hlayer.
  destruct (df_apply_outcome id_list pre w) as [Hiff Hdisk].
  apply Hiff in Hpre as [w1 Hret]. destruct (Hdisk w1 Hret) as [Hremote Hd].
  destruct (row_func_fails id_list row w1 Hgo) as [msg Hfail];
    [now rewrite Hremote|].
  exists msg, w1. split; [exact Hret|].
  rewrite df_apply_app, Hret. cbn [df_apply]. unfold bind. rewrite Hfail.
  split; [reflexivity|]. cbn [final opened announced disk]. exact Hd.
Qed.

(** In [disk_after], a path holds the layer of the last downloaded row
    that targets it. *)
Lemma disk_after_last id_list (r : gmap string (Endpoint G)) pre row post d l :
  Forall (row_passes url_feature_server id_list r) (pre ++ row :: post) ->
  skipped id_list row = false ->
  row_layer url_feature_server r row = Some l ->
  Forall (fun row' => skipped id_list row' = true \/ shp row' <> shp row) post ->
  disk_after url_feature_server download_folder id_list secure_filename
             r (pre ++ row :: post) d !! shp row
  = Some l.
Proof.
  intros Hall Hgo Hlayer Hlater. revert d Hall.
  induction pre as [|row0 pre IH]; intros d Hall.
  - cbn [app disk_after]. rewrite Hgo, Hlayer.
    apply Forall_cons in Hall as [_ Hall].
    generalize (<[shp row := l]> d), (lookup_insert_eq d (shp row) l).
    induction post as [|row' post IHpost]; intros d' Hd'; [exact Hd'|].
    apply Forall_cons in Hall as [Hpass Hall].
    apply Forall_cons in Hlater as [Hrow' Hlater].
    cbn [disk_after]. destruct (skipped id_list row') eqn:Hskip'.
    + now apply IHpost.
    + destruct Hpass as [Hs | [l' Hl']]; [congruence|]. rewrite Hl'.
      destruct Hrow' as [Hs | Hne]; [congruence|].
      apply IHpost; [assumption..|]. now rewrite lookup_insert_ne.
  - cbn [app disk_after]. apply Forall_cons in Hall as [Hpass Hall].
    destruct (skipped id_list row0) eqn:Hskip0; [now apply IH|].
    destruct Hpass as [Hs | [l0 Hl0]]; [congruence|]. rewrite Hl0.
    now apply IH.
Qed.

(** In [disk_after], a path no downloaded row targets is as before. *)
Lemma disk_after_other id_list (r : gmap string (Endpoint G)) rows d p :
  Forall (fun row => skipped id_list row = true \/ shp row <> p) rows ->
  disk_after url_feature_server download_folder id_list secure_filename r rows d !! p
  = d !! p.
Proof.
  intros Hall. revert d.
  induction Hall as [|row rows Hrow _ IH]; intros d; [reflexivity|].
  cbn [disk_after]. destruct (skipped id_list row) eqn:Hskip; [apply IH|].
  destruct Hrow as [Hs | Hne]; [congruence|].
  destruct (row_layer url_feature_server r row); [|reflexivity].
  rewrite IH. now apply lookup_insert_ne.
Qed.

(** X4.  After a loop that returns, the shapefile of a downloaded row holds
    that row's layer unless a later downloaded row has the same path, and
    a path that no downloaded row targets is as it was before. *)
Theorem df_apply_last_writer id_list pre row post w w' l :
  loop id_list (pre ++ row :: post) w = Return tt w' ->
  skipped id_list row = false ->
  row_layer url_feature_server (remote w) row = Some l ->
  Forall (fun row' => skipped id_list row' = true \/ shp row' <> shp row) post ->
  disk w' !! shp row = Some l
  /\ forall p,
       Forall (fun row' => skipped id_list row' = true \/ shp row' <> p)
              (pre ++ row :: post) ->
       disk w' !! p = disk w !! p.
Proof.
  intros Hret Hgo Hlayer Hlater.
  destruct (df_apply_outcome id_list (pre ++ row :: post) w) as [Hiff Hdisk].
  destruct (Hdisk w' Hret) as [_ ->].
  split.
  - apply disk_after_last; try assumption. apply Hiff. eauto.
  - intros p Hp. now apply disk_after_other.
Qed.

(** X5.  Two downloaded layers whose names [secure_filename] maps to the same
    file name share one shapefile: after the loop passed both, the file
    holds the features of the later layer only. *)
Theorem same_sanitized_name_overwrites id_list row1 row2 w l1 l2 :
  secure_filename (name row1) = secure_filename (name row2) ->
  skipped id_list row1 = false ->
  skipped id_list row2 = false ->
  row_layer url_feature_server (remote w) row1 = Some l1 ->
  row_layer url_feature_server (remote w) row2 = Some l2 ->
  exists w',
    loop id_list [row1; row2] w = Return tt w'
    /\ shp row1 = shp row2
    /\ disk w' !! shp row1 = Some l2
    /\ forall p, p <> shp row1 -> disk w' !! p = disk w !! p.
Proof.
  intros Hname Hgo1 Hgo2 Hl1 Hl2.
  assert (Hpath : shp row1 = shp row2)
    by (unfold shp_path_of; now rewrite Hname).
  destruct (df_apply_outcome id_list [row1; row2] w) as [Hiff Hdisk].
  destruct (proj2 Hiff) as [w' Hret].
  { constructor; [right; rewrite Hl1; eauto|].
    constructor; [right; rewrite Hl2; eauto|constructor]. }
  exists w'. split; [exact Hret|]. split; [exact Hpath|].
  destruct (Hdisk w' Hret) as [_ ->].
  cbn [disk_after]. rewrite Hgo1, Hgo2, Hl1, Hl2, <- Hpath.
  split; [apply lookup_insert_eq|].
  intros p Hp. now rewrite !lookup_insert_ne.
Qed.

End LoopFacts.

(** ** Paths and URLs *)

(** X6.  With a sanitizer whose result holds no separator, the shapefile
    of a row lies directly in [download_folder]: its path is the folder,
    then a separator exactly when the folder is not empty and does not
    end with one, then the sanitized name with [.shp]; its base name is
    the sanitized name with [.shp]. *)
Theorem shapefile_inside_download_folder
    (download_folder : string) (secure_filename : string -> string)
    (row : LayerRow) :
  Str.contains "/" (secure_filename (name row)) = false ->
  os_path_basename (shp_path_of download_folder secure_filename row)
  = secure_filename (name row) +:+ ".shp"
  /\ shp_path_of download_folder secure_filename row
     = download_folder
       +:+ (if String.eqb download_folder "" || ends_with_sep download_folder
            then "" else "/")
       +:+ secure_filename (name row) +:+ ".shp".
Proof.
  intros Hname.
  assert (Hfile : Str.contains "/" (secure_filename (name row) +:+ ".shp") = false)
    by (rewrite contains_app, Hname; reflexivity).
  split; [now apply basename_join|].
  unfold shp_path_of, os_path_join.
  destruct (starts_with_sep _) eqn:Hstart.
  { destruct (secure_filename (name row) +:+ ".shp") as [|c b]; [discriminate|].
    cbn in Hfile. apply orb_false_iff in Hfile as [Hc _].
    destruct c as [[] [] [] [] [] [] [] []]; discriminate. }
  destruct (String.eqb download_folder "" || ends_with_sep download_folder);
    reflexivity.
Qed.

(** X8.  The clipped shapefile keeps the file name of the downloaded layer
    and lies in the clipped folder, wherever the download folder is. *)
Theorem clipped_path_keeps_file_name (download_folder clipped_folder : string) :
  nld_clipped_shp_path download_folder clipped_folder
  = os_path_join clipped_folder "Leveed_Areas.shp"
  /\ os_path_basename (nld_clipped_shp_path download_folder clipped_folder)
     = os_path_basename (nld_shapefile_path download_folder).
Proof.
  unfold nld_clipped_shp_path, nld_shapefile_path.
  rewrite !basename_join by reflexivity. split; reflexivity.
Qed.

Lemma length_append (s t : string) :
  String.length (s +:+ t) = String.length s + String.length t.
Proof.
  induction s as [|c s IH]; [reflexivity|].
  rewrite append_cons. cbn. now rewrite IH.
Qed.

Lemma append_cancel_r (s1 s2 t : string) :
  s1 +:+ t = s2 +:+ t -> s1 = s2.
Proof.
  intros Heq.
  assert (Hlen : String.length s1 = String.length s2).
  { apply (f_equal String.length) in Heq.
    rewrite !length_append in Heq. lia. }
  revert s2 Heq Hlen. induction s1 as [|c s1 IH]; intros [|c2 s2] Heq Hlen;
    try discriminate Hlen; [reflexivity|].
  rewrite !append_cons in Heq. injection Heq as -> Heq.
  f_equal. apply IH; [exact Heq|]. cbn in Hlen. lia.
Qed.

Lemma of_Z_inj (z1 z2 : Z) : Str.of_Z z1 = Str.of_Z z2 -> z1 = z2.
Proof.
  unfold Str.of_Z. intros Heq.
  assert (Hint : Z.to_int z1 = Z.to_int z2).
  { pose proof (NilEmpty.isi (Z.to_int z1)) as H1.
    pose proof (NilEmpty.isi (Z.to_int z2)) as H2.
    rewrite Heq in H1. congruence. }
  rewrite <- (DecimalZ.of_to z1), <- (DecimalZ.of_to z2). now rewrite Hint.
Qed.

(** X7.  The layer URL [row_func] builds determines the layer id: two rows
    are fetched from the same URL only if they have the same id. *)
Theorem layer_url_determines_id (url_feature_server : string) (row1 row2 : LayerRow) :
  layer_url_of url_feature_server row1 = layer_url_of url_feature_server row2
  <-> id row1 = id row2.
Proof.
  unfold layer_url_of. split; [|now intros ->].
  intros Heq. apply String.app_inj, String.app_inj in Heq.
  now apply append_cancel_r, of_Z_inj in Heq.
Qed.

(** ** The clip as a filter of the frame *)

Lemma filter_Permutation {A : Type} (p : A -> bool) (l k : list A) :
  l ≡ₚ k -> List.filter p l ≡ₚ List.filter p k.
Proof.
  induction 1 as [|x l k _ IH|x y l|l k m _ IH1 _ IH2]; cbn.
  - reflexivity.
  - destruct (p x); [now constructor|exact IH].
  - destruct (p x), (p y); try reflexivity. apply perm_swap.
  - now transitivity (List.filter p k).
Qed.

Lemma filter_filter_implied {A : Type} (p q : A -> bool) (l : list A) :
  (forall x, p x = true -> q x = true) ->
  List.filter p (List.filter q l) = List.filter p l.
Proof.
  intros Himp. induction l as [|x l IH]; [reflexivity|]. cbn.
  destruct (q x) eqn:Hq; cbn; [now rewrite IH|].
  destruct (p x) eqn:Hp; [|exact IH].
  rewrite (Himp x Hp) in Hq. discriminate Hq.
Qed.

Lemma filter_length_le {A : Type} (p : A -> bool) (l : list A) :
  length (List.filter p l) <= length l.
Proof. apply sublist_length, filter_sublist. Qed.

Lemma rows_at_positions {A : Type} (rows cand : list A) (positions : list nat) :
  Forall2 (fun i r => rows !! i = Some r) positions cand ->
  cand = omap (fun i => rows !! i) positions.
Proof.
  induction 1 as [|i r positions cand Hi _ IH]; [reflexivity|].
  cbn. rewrite Hi. now f_equal.
Qed.

(** Scanning the positions of a frame and taking the rows that pass a
    test is filtering the frame by the test. *)
Lemma scan_rows_filter {A : Type} (hit : A -> bool) (pre rows : list A) :
  omap (fun i => (pre ++ rows) !! i)
       (List.filter (fun i => match (pre ++ rows) !! i with
                              | Some r => hit r
                              | None => false
                              end)
                    (seq (length pre) (length rows)))
  = List.filter hit rows.
Proof.
  revert pre. induction rows as [|r rows IH]; intros pre; [reflexivity|].
  cbn [length seq List.filter].
  rewrite (list_lookup_middle pre rows r (length pre) eq_refl).
  specialize (IH (pre ++ [r])).
  rewrite <- app_assoc, length_app in IH. cbn [app length] in IH.
  rewrite Nat.add_1_r in IH.
  destruct (hit r); cbn [omap list_omap].
  - rewrite (list_lookup_middle pre rows r (length pre) eq_refl). now rewrite IH.
  - exact IH.
Qed.

Section ClipFilter.
Context {G : Type} `{Geometry G}.
Variable sindex : SpatialIndex G.
Implicit Types (F cand R : list (Feature G)) (b f : Feature G).

Abbreviation box_hit b :=
  (fun f => bbox_intersects (bounds (geometry f)) (bounds (geometry b))).
Abbreviation inside b := (fun f => within (geometry f) (geometry b)).

(** The index reports the positions a scan of the frame finds, in some
    order. *)
Lemma sindex_query_scan F (B : G) : sindex_query sindex F B ≡ₚ scan_query F B.
Proof.
  apply NoDup_Permutation; [apply sindex_NoDup|apply scan_query_NoDup|].
  intros i. rewrite elem_of_scan_query. split.
  - apply sindex_sound.
  - intros (f & Hf & Hhit). now apply (sindex_complete sindex F B i f).
Qed.

(** The rows the first pass hands on are the rows whose box is hit, in
    the order of the index. *)
Lemma candidates_box_filter F b cand :
  clip_possible_gdf sindex F (geometry b) = Ok cand ->
  cand ≡ₚ List.filter (box_hit b) F.
Proof.
  intros Hcand.
  destruct (clip_run sindex F b []) as (cand' & Hcand' & Hrows & _).
  assert (cand' = cand) as -> by congruence.
  rewrite (rows_at_positions F cand _ Hrows), (sindex_query_scan F (geometry b)).
  unfold scan_query.
  now rewrite <- (scan_rows_filter (box_hit b) [] F).
Qed.

Lemma clip_within_perm F b rest R :
  (forall a B : G, within a B = true ->
                   bbox_intersects (bounds a) (bounds B) = true) ->
  clip sindex F (b :: rest) = Ok R ->
  R ≡ₚ List.filter (inside b) F.
Proof.
  intros Hbox HR.
  destruct (clip_run sindex F b rest) as (cand & Hcand & _ & Hclip).
  assert (R = List.filter (inside b) cand) as -> by congruence.
  rewrite (filter_Permutation (inside b) _ _ (candidates_box_filter F b cand Hcand)).
  rewrite filter_filter_implied; [reflexivity|].
  intros f Hf. now apply Hbox.
Qed.

(** X9.  The first pass returns the rows of the frame whose bounding box
    intersects the bounding box of the boundary geometry: all of them,
    each as often as it occurs in the frame, in the order of the index. *)
Theorem first_pass_is_box_filter F b :
  exists cand,
    clip_possible_gdf sindex F (geometry b) = Ok cand
    /\ cand ≡ₚ List.filter (box_hit b) F.
Proof.
  destruct (clip_run sindex F b []) as (cand & Hcand & _).
  exists cand. split; [exact Hcand|]. now apply candidates_box_filter.
Qed.

(** X10.  The clip never returns more rows than the frame has, and the clip of
    a frame without rows is the empty frame, not an error. *)
Theorem clip_size F b rest :
  (exists R, clip sindex F (b :: rest) = Ok R /\ length R <= length F)
  /\ clip sindex [] (b :: rest) = Ok [].
Proof.
  assert (Hsize : forall F, exists R,
             clip sindex F (b :: rest) = Ok R /\ length R <= length F).
  { intros F'. destruct (clip_run sindex F' b rest) as (cand & Hcand & _ & Hclip).
    eexists. split; [exact Hclip|].
    etransitivity; [apply filter_length_le|].
    rewrite (Permutation_length (candidates_box_filter F' b cand Hcand)).
    apply filter_length_le. }
  split; [apply Hsize|].
  destruct (Hsize []) as (R & Hclip & Hlen).
  destruct R; [exact Hclip|cbn in Hlen; lia].
Qed.

(** X11.  Provided a geometry within another has a bounding box that
    intersects the other's, the bounding-box pass loses nothing: the clip
    returns exactly the rows of the frame that lie within the boundary
    geometry, each as often as it occurs in the frame. *)
Theorem clip_is_within_filter F b rest :
  (forall a B : G, within a B = true ->
                   bbox_intersects (bounds a) (bounds B) = true) ->
  exists R,
    clip sindex F (b :: rest) = Ok R
    /\ R ≡ₚ List.filter (inside b) F
    /\ forall f, f ∈ R <-> f ∈ F /\ within (geometry f) (geometry b) = true.
Proof.
  intros Hbox.
  destruct (clip_run sindex F b rest) as (cand & _ & _ & Hclip).
  pose proof (clip_within_perm F b rest _ Hbox Hclip) as HR.
  eexists. split; [exact Hclip|]. split; [exact HR|].
  intros f. rewrite HR. now rewrite list_elem_of_In, filter_In, <- list_elem_of_In.
Qed.

(** X12.  Under the same proviso, clipping a clipped frame again with the same
    boundary returns the same rows. *)
Theorem clip_twice F b rest :
  (forall a B : G, within a B = true ->
                   bbox_intersects (bounds a) (bounds B) = true) ->
  exists R R',
    clip sindex F (b :: rest) = Ok R
    /\ clip sindex R (b :: rest) = Ok R'
    /\ R' ≡ₚ R.
Proof.
  intros Hbox.
  destruct (clip_run sindex F b rest) as (cand & _ & _ & Hclip).
  destruct (clip_run sindex (List.filter (inside b) cand) b rest)
    as (cand' & _ & _ & Hclip').
  eexists _, _. split; [exact Hclip|]. split; [exact Hclip'|].
  pose proof (clip_within_perm F b rest _ Hbox Hclip) as HR.
  rewrite (clip_within_perm _ b rest _ Hbox Hclip').
  rewrite (filter_Permutation (inside b) _ _ HR).
  rewrite filter_filter_implied by auto. now symmetry.
Qed.

End ClipFilter.

Lemma rect_within_box (a B : Rect) :
  within a B = true -> bbox_intersects (bounds a) (bounds B) = true.
Proof.
  cbn. unfold RectGeom.within, RectGeom.bounds, RectGeom.covered.
  unfold RectGeom.xlo, RectGeom.xhi, RectGeom.ylo, RectGeom.yhi.
  destruct a as [ax0 ay0 ax1 ay1], B as [bx0 by0 bx1 by1]. cbn.
  intros Hw. apply andb_true_iff in Hw as [Hcov _].
  rewrite !andb_true_iff, !Z.leb_le in *. lia.
Qed.

(** ** The further statements on the sample data *)

Lemma download_twice_same_disk_witness :
  exists w1 w2,
    featurelayer2shapefile_ogr sample_url sample_path serving_world = Return tt w1
    /\ featurelayer2shapefile_ogr sample_url sample_path w1 = Return tt w2
    /\ disk w2 = disk w1
    /\ CDelete sample_path ∈ calls w2.
Proof.
  assert (Hopen : open_datasource (remote serving_world) (query_url_of sample_url)
                  = Some [[levee 1; levee 2; levee 3; levee 4; levee 5]])
    by (vm_compute; reflexivity).
  assert (Hrun1 : featurelayer2shapefile_ogr sample_url sample_path serving_world
                  = Return tt (persisted sample_url sample_path
                                 [levee 1; levee 2; levee 3; levee 4; levee 5]
                                 serving_world))
    by (rewrite featurelayer2shapefile_ogr_run, Hopen; reflexivity).
  assert (Hrun2 : featurelayer2shapefile_ogr sample_url sample_path
                    (persisted sample_url sample_path
                       [levee 1; levee 2; levee 3; levee 4; levee 5] serving_world)
                  = Return tt (persisted sample_url sample_path
                                 [levee 1; levee 2; levee 3; levee 4; levee 5]
                                 (persisted sample_url sample_path
                                    [levee 1; levee 2; levee 3; levee 4; levee 5]
                                    serving_world)))
    by (rewrite featurelayer2shapefile_ogr_run; cbn [persisted remote];
        rewrite Hopen; reflexivity).
  destruct (download_twice_same_disk sample_url sample_path _ _ _ Hrun1 Hrun2)
    as (new & Hsame & _ & Hcalls & Hdel).
  eexists _, _. split; [exact Hrun1|]. split; [exact Hrun2|].
  split; [exact Hsame|].
  rewrite Hcalls. apply elem_of_app. now right.
Defined.

(** The table of the two twin layers, downloaded: the loop returns, both
    rows passed, and the disk is as [disk_after] computes it. *)
Lemma df_apply_returns_witness :
  exists w',
    df_apply sample_server sample_folder PyNone Werkzeug.secure_filename
             [areas_row; areas_twin_row] twin_world
    = Return tt w'
    /\ Forall (row_passes sample_server PyNone (remote twin_world))
              [areas_row; areas_twin_row]
    /\ remote w' = remote twin_world
    /\ disk w'
       = disk_after sample_server sample_folder PyNone Werkzeug.secure_filename
                    (remote twin_world) [areas_row; areas_twin_row]
                    (disk twin_world).
Proof.
  assert (Hret : exists w',
             df_apply sample_server sample_folder PyNone Werkzeug.secure_filename
                      [areas_row; areas_twin_row] twin_world
             = Return tt w')
    by (eexists; vm_compute; reflexivity).
  destruct Hret as [w' Hret]. exists w'. split; [exact Hret|].
  exact (df_apply_returns sample_server sample_folder Werkzeug.secure_filename
           PyNone [areas_row; areas_twin_row] twin_world w' Hret).
Defined.

(** The table of the two twin layers, downloaded without an allow-list:
    the loop returns, and the one shapefile holds the second layer. *)
Example df_apply_twins :
  exists w',
    df_apply sample_server sample_folder PyNone Werkzeug.secure_filename
             [areas_row; areas_twin_row] twin_world
    = Return tt w'
    /\ map_to_list (disk w')
       = [("/home/user/download/Leveed_Areas.shp", [levee 7; levee 8; levee 9])].
Proof. eexists. split; vm_compute; reflexivity. Qed.

Lemma df_apply_stops_at_failure_witness :
  Forall (row_passes sample_server PyNone (remote twin_world)) [areas_row]
  /\ skipped PyNone closed_row = false
  /\ row_layer sample_server (remote twin_world) closed_row = None
  /\ exists msg w',
       df_apply sample_server sample_folder PyNone Werkzeug.secure_filename
                [areas_row; closed_row; areas_twin_row] twin_world
       = Raise (AttributeError msg) w'
       /\ disk w' !! "/home/user/download/Leveed_Areas.shp" = Some [levee 1; levee 2].
Proof.
  assert (Hpre : Forall (row_passes sample_server PyNone (remote twin_world))
                        [areas_row]).
  { constructor; [|constructor]. right. exists [levee 1; levee 2].
    vm_compute. reflexivity. }
  assert (Hlayer : row_layer sample_server (remote twin_world) closed_row = None)
    by (vm_compute; reflexivity).
  split; [exact Hpre|]. split; [reflexivity|]. split; [exact Hlayer|].
  destruct (df_apply_stops_at_failure sample_server sample_folder
              Werkzeug.secure_filename PyNone [areas_row] closed_row
              [areas_twin_row] twin_world Hpre eq_refl Hlayer)
    as (msg & w1 & _ & Hloop & Hdisk).
  cbn [app] in Hloop, Hdisk. rewrite Hloop in Hdisk. cbn [final] in Hdisk.
  eexists msg, _. split; [exact Hloop|].
  rewrite Hdisk. vm_compute. reflexivity.
Defined.

Lemma df_apply_last_writer_witness :
  skipped PyNone areas_twin_row = false
  /\ row_layer sample_server (remote twin_world) areas_twin_row
     = Some [levee 7; levee 8; levee 9]
  /\ exists w',
       df_apply sample_server sample_folder PyNone Werkzeug.secure_filename
                [areas_row; areas_twin_row] twin_world
       = Return tt w'
       /\ disk w' !! "/home/user/download/Leveed_Areas.shp"
          = Some [levee 7; levee 8; levee 9]
       /\ disk w' !! "/home/user/download/Levee_Stations.shp"
          = disk twin_world !! "/home/user/download/Levee_Stations.shp".
Proof.
  assert (Hlayer : row_layer sample_server (remote twin_world) areas_twin_row
                   = Some [levee 7; levee 8; levee 9])
    by (vm_compute; reflexivity).
  split; [reflexivity|]. split; [exact Hlayer|].
  destruct (df_apply sample_server sample_folder PyNone Werkzeug.secure_filename
                     [areas_row; areas_twin_row] twin_world)
    as [[] w'|e w'] eqn:Hret; [|vm_compute in Hret; discriminate Hret].
  destruct (df_apply_last_writer sample_server sample_folder
              Werkzeug.secure_filename PyNone [areas_row] areas_twin_row []
              twin_world w' _ Hret eq_refl Hlayer (Forall_nil_2 _))
    as [Hfile Hframe].
  exists w'. split; [reflexivity|]. split; [exact Hfile|].
  apply Hframe. cbn [app].
  constructor; [right; vm_compute; discriminate|].
  constructor; [right; vm_compute; discriminate|constructor].
Defined.

Lemma same_sanitized_name_overwrites_witness :
  Werkzeug.secure_filename (name areas_row)
  = Werkzeug.secure_filename (name areas_twin_row)
  /\ row_layer sample_server (remote twin_world) areas_row = Some [levee 1; levee 2]
  /\ row_layer sample_server (remote twin_world) areas_twin_row
     = Some [levee 7; levee 8; levee 9]
  /\ exists w',
       df_apply sample_server sample_folder PyNone Werkzeug.secure_filename
                [areas_row; areas_twin_row] twin_world
       = Return tt w'
       /\ disk w' !! shp_path_of sample_folder Werkzeug.secure_filename areas_row
          = Some [levee 7; levee 8; levee 9].
Proof.
  assert (Hl1 : row_layer sample_server (remote twin_world) areas_row
                = Some [levee 1; levee 2]) by (vm_compute; reflexivity).
  assert (Hl2 : row_layer sample_server (remote twin_world) areas_twin_row
                = Some [levee 7; levee 8; levee 9]) by (vm_compute; reflexivity).
  split; [vm_compute; reflexivity|]. split; [exact Hl1|]. split; [exact Hl2|].
  destruct (same_sanitized_name_overwrites sample_server sample_folder
              Werkzeug.secure_filename PyNone areas_row areas_twin_row twin_world
              _ _ ltac:(vm_compute; reflexivity) eq_refl eq_refl Hl1 Hl2)
    as (w' & Hret & _ & Hfile & _).
  exists w'. split; assumption.
Defined.

Lemma shapefile_inside_download_folder_witness :
  Str.contains "/" (Werkzeug.secure_filename (name areas_twin_row)) = false
  /\ shp_path_of sample_folder Werkzeug.secure_filename areas_twin_row
     = "/home/user/download/Leveed_Areas.shp"
  /\ os_path_basename (shp_path_of sample_folder Werkzeug.secure_filename areas_twin_row)
     = Werkzeug.secure_filename (name areas_twin_row) +:+ ".shp"
  /\ shp_path_of sample_folder Werkzeug.secure_filename areas_twin_row
     = sample_folder +:+ "/"
       +:+ Werkzeug.secure_filename (name areas_twin_row) +:+ ".shp".
Proof.
  split; [apply secure_filename_no_sep|].
  split; [vm_compute; reflexivity|].
  destruct (shapefile_inside_download_folder sample_folder Werkzeug.secure_filename
              areas_twin_row (secure_filename_no_sep _)) as [Hbase Hpath].
  split; [exact Hbase|]. rewrite Hpath. reflexivity.
Defined.

Lemma clip_is_within_filter_witness :
  (forall a B : Rect, within a B = true ->
                      bbox_intersects (bounds a) (bounds B) = true)
  /\ exists R,
       clip reverse_scan_index sample_features [basin] = Ok R
       /\ R ≡ₚ [parcel 1 1 1 3 3; parcel 4 5 5 7 7].
Proof.
  split; [exact rect_within_box|].
  destruct (clip_is_within_filter reverse_scan_index sample_features basin []
              rect_within_box) as (R & Hclip & HR & _).
  exists R. split; [exact Hclip|]. exact HR.
Defined.

Lemma clip_twice_witness :
  (forall a B : Rect, within a B = true ->
                      bbox_intersects (bounds a) (bounds B) = true)
  /\ exists R R',
       clip reverse_scan_index sample_features [basin] = Ok R
       /\ clip reverse_scan_index R [basin] = Ok R'
       /\ R' ≡ₚ R.
Proof.
  split; [exact rect_within_box|].
  apply (clip_twice reverse_scan_index sample_features basin [] rect_within_box).
Defined.
